(** * ngormgen: the model extractor and template emitter of cmd/ngormgen/nebula.go

    A shallow embedding of the generator: Go strings are byte strings
    ([string]), the [map[string]int] allow-list is a [gmap], a Go panic is
    the [Panic] outcome of a small error monad, and the output buffer is
    threaded explicitly through the emitters. *)

From Stdlib Require Import String Ascii List Bool Arith Lia.
From stdpp Require Import base strings gmap.
Import ListNotations.
Open Scope string_scope.
Set Warnings "-register-all".

(* ===================================================================== *)
(** ** Bytes and the Go library functions the generator calls *)
(* ===================================================================== *)

(** The quote, the line feed, the tab and the backslash, by code. *)
Definition dq : string := String (ascii_of_nat 34) EmptyString.
Definition nl : string := String (ascii_of_nat 10) EmptyString.
Definition tab : string := String (ascii_of_nat 9) EmptyString.
Definition bs : string := String (ascii_of_nat 92) EmptyString.

(** Concatenation of the pieces of one Go string expression [a + b + c]. *)
Definition cat (pieces : list string) : string :=
  fold_right String.append EmptyString pieces.

(** [strings.ToLower] on ASCII text (Go identifiers outside ASCII are not
    folded by this model). *)
Definition lowerByte (c : ascii) : ascii :=
  let n := nat_of_ascii c in
  if Nat.leb 65 n && Nat.leb n 90 then ascii_of_nat (n + 32) else c.

Fixpoint ToLower (s : string) : string :=
  match s with
  | EmptyString => EmptyString
  | String c r => String (lowerByte c) (ToLower r)
  end.

(** [strings.HasPrefix], [strings.Contains], [strings.TrimPrefix],
    [strings.Join]. *)
Fixpoint HasPrefix (s p : string) {struct p} : bool :=
  match p, s with
  | EmptyString, _ => true
  | String a p', String b s' => Ascii.eqb a b && HasPrefix s' p'
  | String _ _, EmptyString => false
  end.

Fixpoint Contains (s sub : string) : bool :=
  HasPrefix s sub ||
  match s with
  | EmptyString => false
  | String _ r => Contains r sub
  end.

Fixpoint dropBytes (n : nat) (s : string) : string :=
  match n, s with
  | O, _ => s
  | S _, EmptyString => EmptyString
  | S k, String _ r => dropBytes k r
  end.

Definition TrimPrefix (s p : string) : string :=
  if HasPrefix s p then dropBytes (String.length p) s else s.

Definition Join (elems : list string) (sep : string) : string :=
  String.concat sep elems.

(** [strings.Split(s, ",")]: the pieces between the commas, in order. *)
Fixpoint splitComma (cur : string) (s : string) : list string :=
  match s with
  | EmptyString => [cur]
  | String c r =>
      if Ascii.eqb c (ascii_of_nat 44)
      then cur :: splitComma EmptyString r
      else splitComma (cur +:+ String c EmptyString) r
  end.

Definition Split (s : string) : list string := splitComma EmptyString s.

(** *** [fmt.Fprintf] with a format and no operands

    Almost every [Printf]/[Printlnf] call of the generator passes the
    text to print as the format itself.  Text without a percent sign is
    copied; [%%] prints one percent sign; a verb finds no operand and
    prints [%!v(MISSING)]; a format ending inside a verb prints
    [%!(NOVERB)].  Argument indexes, star widths and verbs outside ASCII are
    not modelled; the theorems below only rely on percent-free text. *)
Inductive fmtState := InText | InFlags | InWidth | InPrec.

Definition isFlagByte (c : ascii) : bool :=
  existsb (Ascii.eqb c) (list_ascii_of_string "#0+- ").

Definition isDigitByte (c : ascii) : bool :=
  let n := nat_of_ascii c in Nat.leb 48 n && Nat.leb n 57.

Definition percent : ascii := ascii_of_nat 37.
Definition dot : ascii := ascii_of_nat 46.

Definition emitVerb (c : ascii) : string :=
  if Ascii.eqb c percent then String percent EmptyString
  else cat ["%!"; String c EmptyString; "(MISSING)"].

Fixpoint doPrintf (st : fmtState) (format : string) : string :=
  match format with
  | EmptyString =>
      match st with InText => EmptyString | _ => "%!(NOVERB)" end
  | String c r =>
      match st with
      | InText =>
          if Ascii.eqb c percent then doPrintf InFlags r
          else String c (doPrintf InText r)
      | InFlags =>
          if isFlagByte c then doPrintf InFlags r
          else if isDigitByte c then doPrintf InWidth r
          else if Ascii.eqb c dot then doPrintf InPrec r
          else emitVerb c +:+ doPrintf InText r
      | InWidth =>
          if isDigitByte c then doPrintf InWidth r
          else if Ascii.eqb c dot then doPrintf InPrec r
          else emitVerb c +:+ doPrintf InText r
      | InPrec =>
          if isDigitByte c then doPrintf InPrec r
          else emitVerb c +:+ doPrintf InText r
      end
  end.

Definition Sprintf0 (format : string) : string := doPrintf InText format.

(** Text that no verb can hide in. *)
Fixpoint percentFree (s : string) : bool :=
  match s with
  | EmptyString => true
  | String c r => negb (Ascii.eqb c percent) && percentFree r
  end.

(* ===================================================================== *)
(** ** Panics *)
(* ===================================================================== *)

(** A Go call either returns or panics; a panic nobody recovers ends the
    process. *)
Inductive result (A : Type) : Type :=
| Ok (a : A)
| Panic (msg : string).
Arguments Ok {A} a.
Arguments Panic {A} msg.

Definition bindR {A B} (r : result A) (k : A -> result B) : result B :=
  match r with
  | Ok a => k a
  | Panic m => Panic m
  end.

Notation "'call' x '<-' r 'in' k" := (bindR r (fun x => k))
  (at level 10, x name, r at level 100, k at level 200).

(* ===================================================================== *)
(** ** The entity model: [Field] and [Struct] *)
(* ===================================================================== *)

Module Field.
Record t := mk {
  name : string;
  nickname : string;
  typeStr : string;
  comment : string;
  isIndex : bool;
  otherIndexFields : string
}.
End Field.

Module Struct.
Record t := mk {
  name : string;
  nickname : string;
  fields : list Field.t;
  isTag : bool;
  isEdge : bool
}.
End Struct.

Definition POTYPE_TAG : string := "Tag".
Definition POTYPE_EDGE : string := "Edge".

Definition IDFIELD : Field.t :=
  Field.mk "Id" "id" "int64" EmptyString false EmptyString.

(* ===================================================================== *)
(** ** Declaration syntax *)
(* ===================================================================== *)

(** The part of [go/ast] that [genStruct] looks at. *)
Inductive Expr :=
| Ident (Name : string)
| SelectorExpr (X : Expr) (Sel : string)
| StarExpr (X : Expr)
| OtherExpr.

(** One entry of a struct's field list.  [Comment] is
    [strings.TrimSpace(field.Comment.Text())]; [Tag] is [None] when the
    field has no tag literal and otherwise holds what
    [reflect.StructTag.Lookup("idx")] finds in it: [None] for a tag without
    the key, [Some v] for the key with value [v]. *)
Record AstField := mkAstField {
  Names : list string;
  FType : Expr;
  Tag : option (option string);
  Comment : string
}.

Inductive TypeExpr :=
| StructType (Fields : list AstField)
| OtherType.

(** The nodes [ast.Inspect] hands to [genStruct].  The nodes below a
    [TypeSpec] (identifiers, field lists, type expressions) are neither type
    specs nor function declarations, so they are left out: whether the walk
    descends into them changes nothing. *)
Inductive Node :=
| TypeSpec (Name : string) (Type_ : TypeExpr)
| FuncDecl (Recv : option (list AstField)) (Body : list Node)
| OtherNode (children : list Node).

(** [ast.File]: the [Text()] of each comment group, and the declarations. *)
Record AstFile := mkAstFile {
  Comments : list string;
  Decls : list Node
}.

(** [File]: one parsed file and the state of its walk. *)
Module File.
Record t := mk {
  dir : string;
  file : AstFile;
  allowTypeNames : option (gmap string Z);
  structs : list Struct.t;
  trimPrefix : string;
  lineComment : bool
}.
End File.

Definition withAllow (f : File.t) (a : option (gmap string Z)) : File.t :=
  File.mk (File.dir f) (File.file f) a (File.structs f)
          (File.trimPrefix f) (File.lineComment f).

Definition withStructs (f : File.t) (ss : list Struct.t) : File.t :=
  File.mk (File.dir f) (File.file f) (File.allowTypeNames f) ss
          (File.trimPrefix f) (File.lineComment f).

Definition withDir (f : File.t) (d : string) : File.t :=
  File.mk d (File.file f) (File.allowTypeNames f) (File.structs f)
          (File.trimPrefix f) (File.lineComment f).

(** [len(m)] and [delete(m, k)] on a possibly nil map. *)
Definition mapLen (m : option (gmap string Z)) : nat :=
  match m with None => 0 | Some m => size m end.

Definition mapDelete (m : option (gmap string Z)) (k : string)
  : option (gmap string Z) :=
  match m with None => None | Some m => Some (delete k m) end.

Definition allowTypeName (f : File.t) (name : string) : bool :=
  match File.allowTypeNames f with
  | None => true
  | Some m => bool_decide (is_Some (m !! name))
  end.

(* ===================================================================== *)
(** ** Model extraction: [genStruct] *)
(* ===================================================================== *)

Definition setTag (s : Struct.t) : Struct.t :=
  Struct.mk (Struct.name s) (Struct.nickname s) (Struct.fields s)
            true (Struct.isEdge s).

Definition setEdge (s : Struct.t) : Struct.t :=
  Struct.mk (Struct.name s) (Struct.nickname s) (Struct.fields s)
            (Struct.isTag s) true.

Definition addFields (s : Struct.t) (fs : list Field.t) : Struct.t :=
  Struct.mk (Struct.name s) (Struct.nickname s) (Struct.fields s ++ fs)
            (Struct.isTag s) (Struct.isEdge s).

(** The marker test shared by the embedded and the pointer-embedded form. *)
Definition markSelector (stru : Struct.t) (sel : string) : Struct.t :=
  if String.eqb sel POTYPE_TAG then setTag stru
  else if String.eqb sel POTYPE_EDGE then setEdge stru
  else stru.

(** The [Field] built for one declared name of an identifier-typed entry. *)
Definition mkField (field : AstField) (typeName : string) (name : string)
  : Field.t :=
  match Tag field with
  | None =>
      Field.mk name (ToLower name) typeName (Comment field) false EmptyString
  | Some None =>
      Field.mk name (ToLower name) typeName (Comment field) false EmptyString
  | Some (Some v) =>
      Field.mk name (ToLower name) typeName (Comment field) true v
  end.

(** One turn of the loop over [st.Fields.List]. *)
Definition addAstField (stru : Struct.t) (field : AstField) : Struct.t :=
  match FType field with
  | Ident typeName =>
      addFields stru (map (mkField field typeName) (Names field))
  | SelectorExpr _ sel => markSelector stru sel
  | StarExpr (SelectorExpr _ sel) => markSelector stru sel
  | _ => stru
  end.

Definition mkStruct (name : string) (flds : list AstField) : Struct.t :=
  fold_left addAstField flds
            (Struct.mk name (ToLower name) [] false false).

(** [genStruct]: the visitor.  A function declaration without a receiver
    has a nil [Recv], and ranging over [fd.Recv.List] dereferences it.  The
    debugging prints are not modelled. *)
Definition genStruct (node : Node) (f : File.t) : result (bool * File.t) :=
  match node with
  | FuncDecl None _ =>
      Panic "runtime error: invalid memory address or nil pointer dereference"
  | FuncDecl (Some _) _ => Ok (true, f)
  | OtherNode _ => Ok (true, f)
  | TypeSpec name ty =>
      if negb (allowTypeName f name) then Ok (true, f)
      else
        let f1 :=
          match ty with
          | StructType flds =>
              withStructs f (File.structs f ++ [mkStruct name flds])
          | OtherType => f
          end in
        if Nat.eqb (mapLen (File.allowTypeNames f1)) 1 then Ok (false, f1)
        else Ok (true, withAllow f1 (mapDelete (File.allowTypeNames f1) name))
  end.

(** [ast.Inspect]: depth first, children only where the visitor said so.
    The closing call of the visitor with a nil node changes nothing and is
    left out. *)
Fixpoint Inspect (node : Node) (f : File.t) {struct node} : result File.t :=
  match genStruct node f with
  | Panic m => Panic m
  | Ok (false, f1) => Ok f1
  | Ok (true, f1) =>
      let walk :=
        fix walk (l : list Node) (f : File.t) {struct l} : result File.t :=
          match l with
          | [] => Ok f
          | c :: l' =>
              match Inspect c f with
              | Ok f' => walk l' f'
              | Panic m => Panic m
              end
          end in
      match node with
      | TypeSpec _ _ => Ok f1
      | FuncDecl _ body => walk body f1
      | OtherNode ch => walk ch f1
      end
  end.

Fixpoint InspectList (l : list Node) (f : File.t) : result File.t :=
  match l with
  | [] => Ok f
  | c :: l' => call f' <- Inspect c f in InspectList l' f'
  end.

(** The walk of a whole file: the [*ast.File] node itself changes nothing. *)
Definition inspectFile (f : File.t) : result File.t :=
  InspectList (Decls (File.file f)) f.

(* ===================================================================== *)
(** ** The output buffer *)
(* ===================================================================== *)

(** An emitter appends to [g.buf] or panics half way. *)
Definition Emit : Type := string -> result string.

Definition Printf (format : string) : Emit :=
  fun buf => Ok (buf +:+ Sprintf0 format).

Definition Printlnf (format : string) : Emit :=
  fun buf => Ok (buf +:+ Sprintf0 (format +:+ nl)).

(** [g.Printlnf("%s", text)]: one string operand, printed as it is. *)
Definition PrintlnfS (text : string) : Emit :=
  fun buf => Ok (buf +:+ text +:+ nl).

Definition skip : Emit := fun buf => Ok buf.

(** Statements in sequence. *)
Fixpoint block (stmts : list Emit) : Emit :=
  fun buf =>
    match stmts with
    | [] => Ok buf
    | e :: rest => call buf' <- e buf in block rest buf'
    end.

(** A print whose argument is computed by a call that may panic. *)
Definition emitR (r : result string) (k : string -> Emit) : Emit :=
  fun buf => call v <- r in k v buf.

Definition when (b : bool) (e : Emit) : Emit := if b then e else skip.

(** [for _, x := range l] and [for i, x := range l]. *)
Definition forEach {A} (l : list A) (body : A -> Emit) : Emit :=
  block (map body l).

Fixpoint forEachFrom {A} (i : nat) (l : list A) (body : nat -> A -> Emit)
  : Emit :=
  match l with
  | [] => skip
  | x :: rest => block [body i x; forEachFrom (S i) rest body]
  end.

Definition forEachI {A} (l : list A) (body : nat -> A -> Emit) : Emit :=
  forEachFrom 0 l body.

(* ===================================================================== *)
(** ** The type codec: methods of [Field] *)
(* ===================================================================== *)

Definition toNebulaType (f : Field.t) : string := Field.typeStr f.

Definition Field_funcBindResult (f : Field.t) (struct_name prefix : string)
  : result string :=
  let set :=
    if String.eqb (Field.nickname f) (Field.nickname IDFIELD)
    then struct_name +:+ ".SetId(f)"
    else cat [struct_name; "."; Field.name f; " = "; Field.typeStr f; "(f)"] in
  let t := Field.typeStr f in
  call val <-
    (if String.eqb t "string" then Ok "AsString()"
     else if String.eqb t "int" then Ok "AsInt()"
     else if String.eqb t "int64" then Ok "AsInt()"
     else if String.eqb t "int32" then Ok "AsInt()"
     else if String.eqb t "int16" then Ok "AsInt()"
     else if String.eqb t "int8" then Ok "AsInt()"
     else if String.eqb t "float64" then Ok "AsFloat()"
     else if String.eqb t "float32" then Ok "AsFloat()"
     else Panic (t +:+ "unsupport")) in
  Ok (cat [nl;
           "val,err := record.GetValueByColName("; dq; prefix;
             Field.nickname f; dq; ")"; nl;
           tab; tab; tab; "if err != nil {"; nl;
           tab; tab; tab; tab; "panic(err)"; nl;
           tab; tab; tab; "}"; nl;
           tab; tab; tab; "f,err := val."; val; nl;
           tab; tab; tab; "if err != nil {"; nl;
           tab; tab; tab; tab; "panic(err)"; nl;
           tab; tab; tab; "}"; nl;
           set]).

Definition funcValue (f : Field.t) (structName : string) : result string :=
  let t := Field.typeStr f in
  let x := cat [structName; "."; Field.name f] in
  if String.eqb t "string" then
    Ok (cat [dq; bs; dq; dq; " + "; x; " + "; dq; bs; dq; dq])
  else if String.eqb t "int" then
    Ok (cat ["strconv.Itoa("; x; ")"])
  else if String.eqb t "int64" then
    Ok (cat ["strconv.FormatInt("; x; ", 10)"])
  else if String.eqb t "int32" then
    Ok (cat ["strconv.FormatInt(int64("; x; "), 10)"])
  else if String.eqb t "int16" then
    Ok (cat ["strconv.FormatInt(int64("; x; "), 10)"])
  else if String.eqb t "int8" then
    Ok (cat ["strconv.FormatInt(int64("; x; "), 10)"])
  else if String.eqb t "float64" then
    Ok (cat ["strconv.FormatFloat("; x; ", 'E', -1, 64)"])
  else if String.eqb t "float32" then
    Ok (cat ["strconv.FormatFloat(float64("; x; "), 'E', -1, 32)"])
  else Panic (t +:+ "unsupport").

Definition funcEq (f : Field.t) (prefix structName nqlVarName : string)
  : result string :=
  if String.eqb (Field.name f) (Field.name IDFIELD) then
    call v <- funcValue f structName in
    Ok (cat ["id("; nqlVarName; ")=="; v])
  else
    call v <- funcValue f structName in
    Ok (cat [dq; prefix; Field.nickname f; "=="; dq; "+"; v]).

(* ===================================================================== *)
(** ** The template emitter: methods of [Generator] *)
(* ===================================================================== *)

(** The loop five emitters share: inside [for _, f := range fields], one
    [if f == "<nickname>"] arm per declared field, chained with [else]. *)
Definition rangeFields (s : Struct.t) (arm : Field.t -> Emit) : Emit :=
  when (Nat.ltb 0 (length (Struct.fields s)))
    (block
       [ Printlnf (tab +:+ "for _, f := range fields {");
         forEachI (Struct.fields s) (fun i f =>
           block
             [ when (negb (Nat.eqb i 0)) (Printf "else ");
               Printlnf (cat ["if f == "; dq; Field.nickname f; dq; " {"]);
               arm f;
               Printf "}" ]);
         Printlnf (nl +:+ tab +:+ "}") ]).

Definition funcConditionItem (s : Struct.t) : Emit :=
  block
    [ Printlnf (cat ["func (m *"; Struct.name s;
                     ") ConditionItem(fields ...string) []string {"]);
      Printlnf "result := make([]string, 0)";
      rangeFields s (fun f =>
        emitR (funcEq f (cat ["v."; Struct.nickname s; "."]) "m" "v")
              (fun e => Printlnf (cat ["result = append(result,"; e; ")"])));
      Printlnf "return result";
      Printlnf "}" ].

Definition funcBindOne (s : Struct.t) : Emit :=
  block
    [ Printlnf (cat ["func (m *"; Struct.name s;
                     ") BindOne(result *nebula_go.ResultSet,fields ...string) {"]);
      Printlnf "if result.GetRowSize() == 0 {";
      Printlnf (tab +:+ "return");
      Printlnf "}";
      Printlnf "record,err := result.GetRowValuesByIndex(0)";
      Printlnf "if err != nil {";
      Printlnf "panic(err)";
      Printlnf "}";
      Printlnf "m.BindRecord(record)";
      Printlnf "}" ].

Definition funcOne (s : Struct.t) : Emit :=
  let sn := Struct.nickname s in
  block
    [ Printlnf (cat ["func (m *"; Struct.name s;
                     ") One(session *nebula_go.Session,fields ...string) {"]);
      Printlnf "var where string";
      Printlnf "if len(fields) > 0 {";
      Printlnf (cat ["where = "; dq; " WHERE "; dq;
                     " + strings.Join(m.ConditionItem(fields...), "; dq; ",";
                     dq; ")"]);
      Printlnf "}";
      Printlnf (cat ["nql := "; dq; "MATCH (v:"; sn; ") "; dq; " + where + ";
                     dq; " return id(v) as "; sn; "_id"; dq; " + "]);
      Printlnf "`";
      forEach (Struct.fields s) (fun f =>
        Printlnf (cat [tab; ",v."; sn; "."; Field.nickname f; " as "; sn;
                       "_"; Field.nickname f]));
      Printlnf " limit 1`";
      Printlnf "result,err := session.Execute(nql)";
      Printlnf "if err != nil {";
      Printlnf "panic(err)";
      Printlnf "}";
      Printlnf "if result.GetErrorCode() != 0 {";
      Printlnf (tab +:+ "panic(result.GetErrorMsg())");
      Printlnf "}";
      Printlnf "if result.GetRowSize() == 0 {";
      Printlnf (tab +:+ "return");
      Printlnf "}";
      Printlnf "record,err := result.GetRowValuesByIndex(0)";
      Printlnf "if err != nil {";
      Printlnf "panic(err)";
      Printlnf "}";
      Printlnf "m.BindRecord(record)";
      Printlnf "}" ].

Definition funcList (s : Struct.t) : Emit :=
  let sn := Struct.nickname s in
  block
    [ Printlnf (cat ["func (m *"; Struct.name s;
                     ") List(session *nebula_go.Session, ms *"; Struct.name s;
                     "List, offset, size int64, fields ...string) {"]);
      Printlnf "var where string";
      Printlnf "if len(fields) > 0 {";
      Printlnf (cat ["where = "; dq; " WHERE "; dq;
                     " + strings.Join(m.ConditionItem(fields...), "; dq; ",";
                     dq; ")"]);
      Printlnf "}";
      Printlnf (cat ["nql := "; dq; "MATCH (v:"; sn; ") "; dq; " + where + ";
                     dq; " return id(v) as "; sn; "_id"; dq; " +"]);
      forEach (Struct.fields s) (fun f =>
        Printlnf (cat [tab; tab; tab; dq; ",v."; sn; "."; Field.nickname f;
                       " as "; sn; "_"; Field.nickname f; dq; " +"]));
      Printlnf (cat [" "; dq; " SKIP "; dq; " + strconv.FormatInt(offset, 10) + ";
                     dq; " LIMIT "; dq; " + strconv.FormatInt(size, 10)"]);
      Printlnf "result,err := session.Execute(nql)";
      Printlnf "if err != nil {";
      Printlnf "panic(err)";
      Printlnf "}";
      Printlnf "if result.GetErrorCode() != 0 {";
      Printlnf (tab +:+ "panic(result.GetErrorMsg())");
      Printlnf "}";
      Printlnf "ms.BindResult(result)";
      Printlnf "}" ].

Definition funcInsertTag (s : Struct.t) : Emit :=
  if negb (Struct.isTag s) then skip else
  block
    [ Printlnf (cat ["func (m *"; Struct.name s;
                     ") Insert(session *nebula_go.Session, fields ...string) {"]);
      Printlnf "if len(fields) == 0 {";
      Printlnf "fields = m.AllFields()";
      Printlnf "}";
      Printlnf (cat ["nql := "; dq; "insert VERTEX "; dq; " + m.TagName() +";
                     dq; "("; dq; "+m.NqlNames(fields...)+"; dq; ") VALUES ";
                     dq; " + "; nl;
                     tab; "strconv.FormatInt(m.Id2(),10) + "; dq; ":("; dq;
                     " + m.NqlValues(fields...)+ "; dq; ")"; dq]);
      Printlnf "result,_ := session.Execute(nql)";
      Printlnf "checkResultSet(nql, result)";
      Printlnf "}" ].

Definition funcInsertEdge (s : Struct.t) : Emit :=
  if negb (Struct.isEdge s) then skip else
  block
    [ Printlnf (cat ["func (m *"; Struct.name s;
                     ") Insert(session *nebula_go.Session, fields ...string) {"]);
      Printlnf "if len(fields) == 0 {";
      Printlnf "fields = m.AllFields()";
      Printlnf "}";
      Printlnf (cat ["nql := "; dq; "insert EDGE "; dq; " + m.EdgeName() +";
                     dq; "("; dq; "+m.NqlNames(fields...)+"; dq; ") VALUES ";
                     dq; " + "; nl;
                     tab; "strconv.FormatInt(m.Src(),10) + "; dq; "->"; dq;
                     " + strconv.FormatInt(m.Dst(),10) + "; dq; ":("; dq;
                     " + m.NqlValues(fields...)+ "; dq; ")"; dq]);
      Printlnf "result,_ := session.Execute(nql)";
      Printlnf "checkResultSet(nql, result)";
      Printlnf "}" ].

Definition funcRemoveTag (s : Struct.t) : Emit :=
  if negb (Struct.isTag s) then skip else
  block
    [ Printlnf (cat ["func (m *"; Struct.name s;
                     ") RemoveById(session *nebula_go.Session) {"]);
      Printlnf (cat ["nql := "; dq; "DELETE VERTEX "; dq;
                     " + strconv.FormatInt(m.Id(),10) + "; dq; " WITH EDGE;";
                     dq]);
      Printlnf "result,_ := session.Execute(nql)";
      Printlnf "checkResultSet(nql, result)";
      Printlnf "}" ].

Definition funcRemoveEdge (s : Struct.t) : Emit :=
  if negb (Struct.isEdge s) then skip else
  block
    [ Printlnf (cat ["func (m *"; Struct.name s;
                     ") RemoveById(session *nebula_go.Session) {"]);
      Printlnf (cat ["nql := "; dq; "DELETE EDGE "; dq;
                     " + strconv.FormatInt(m.Src(),10) + "; dq; "->"; dq;
                     " + strconv.FormatInt(m.Dst(),10)"]);
      Printlnf "result,_ := session.Execute(nql)";
      Printlnf "checkResultSet(nql, result)";
      Printlnf "}" ].

Definition funcBindResult (s : Struct.t) : Emit :=
  block
    [ Printlnf (cat ["type "; Struct.name s; "List []*"; Struct.name s]);
      Printlnf (cat ["func (ms *"; Struct.name s;
                     "List) BindResult(result *nebula_go.ResultSet, fields ...string) {"]);
      Printlnf "if len(fields) == 0 {";
      Printlnf (cat ["fields = (&"; Struct.name s; "{}).AllFieldsWithId()"]);
      Printlnf "}";
      Printlnf "for i,_ := range result.GetRows() {";
      Printlnf "record,err := result.GetRowValuesByIndex(i)";
      Printlnf "if err != nil {";
      Printlnf "panic(err)";
      Printlnf "}";
      Printlnf (cat ["m := &"; Struct.name s; "{}"]);
      Printlnf "m.BindRecord(record, fields...)";
      Printlnf "*ms = append(*ms, m)";
      Printlnf "}";
      Printlnf "}" ].

Definition funcBindRecord (s : Struct.t) : Emit :=
  block
    [ Printlnf (cat ["func (m *"; Struct.name s;
                     ") BindRecord(record *nebula_go.Record, fields ...string) {"]);
      Printlnf "if len(fields) == 0 {";
      Printlnf "fields = m.AllFieldsWithId()";
      Printlnf "}";
      when (Struct.isTag s)
        (emitR (Field_funcBindResult IDFIELD "m" (Struct.nickname s +:+ "_"))
               Printlnf);
      rangeFields s (fun f =>
        emitR (Field_funcBindResult f "m" (Struct.nickname s +:+ "_"))
              Printlnf);
      Printlnf "}" ].

Definition funcAllFields (s : Struct.t) : Emit :=
  block
    [ Printlnf (cat ["func (m *"; Struct.name s; ") AllFields() []string {"]);
      Printlnf (tab +:+ "return []string{");
      forEach (Struct.fields s) (fun f =>
        Printf (cat [tab; tab; dq; Field.nickname f; dq; ","]));
      Printlnf (tab +:+ "}");
      Printlnf "}" ].

Definition funcAllFieldsWithId (s : Struct.t) : Emit :=
  block
    [ Printlnf (cat ["func (m *"; Struct.name s;
                     ") AllFieldsWithId() []string {"]);
      Printlnf (tab +:+ "return []string{");
      forEach (Struct.fields s) (fun f =>
        Printf (cat [tab; tab; dq; Field.nickname f; dq; ","]));
      Printf (cat [tab; tab; dq; "id"; dq; ","]);
      Printlnf (tab +:+ "}");
      Printlnf "}" ].

Definition funcTagName (s : Struct.t) : Emit :=
  if negb (Struct.isTag s) then skip else
  block
    [ Printlnf (cat ["func (m *"; Struct.name s; ") TagName() string {"]);
      Printlnf (cat [tab; "return "; dq; Struct.nickname s; dq]);
      Printlnf "}" ].

Definition funcEdgeName (s : Struct.t) : Emit :=
  if negb (Struct.isEdge s) then skip else
  block
    [ Printlnf (cat ["func (m *"; Struct.name s; ") EdgeName() string {"]);
      Printlnf (cat [tab; "return "; dq; Struct.nickname s; dq]);
      Printlnf "}" ].

Definition funcNqlNames (s : Struct.t) : Emit :=
  block
    [ Printlnf (cat ["func (m *"; Struct.name s;
                     ") NqlNames(fields ...string) string {"]);
      Printlnf (cat [tab; "return strings.Join(fields, "; dq; ","; dq; ")"]);
      Printlnf "}" ].

Definition funcNqlNameValues (s : Struct.t) : Emit :=
  block
    [ Printlnf (cat ["func (m *"; Struct.name s;
                     ") NqlNameValues(split string, fields ...string) []string {"]);
      Printlnf (tab +:+ "values := make([]string, 0)");
      rangeFields s (fun f =>
        emitR (funcValue f "m") (fun v =>
          Printlnf (cat ["values = append(values, "; dq; Field.nickname f; dq;
                         " + split + "; v; ")"])));
      Printlnf (tab +:+ "return values");
      Printlnf "}" ].

Definition funcNqlBind (s : Struct.t) : Emit :=
  let sn := Struct.nickname s in
  block
    [ Printlnf (cat ["func (m *"; Struct.name s;
                     ") NqlBind(structName string, fields ...string) []string {"]);
      Printlnf (tab +:+ "values := make([]string, 0)");
      rangeFields s (fun f =>
        Printlnf (cat ["values = append(values, structName + "; dq; "."; sn;
                       "."; Field.nickname f; " as "; sn; "_";
                       Field.nickname f; dq; ")"]));
      Printlnf (tab +:+ "return values");
      Printlnf "}" ].

Definition funcNqlValues (s : Struct.t) : Emit :=
  block
    [ Printlnf (cat ["func (m *"; Struct.name s;
                     ") NqlValues(fields ...string) string {"]);
      Printlnf (tab +:+ "var values string");
      rangeFields s (fun f =>
        emitR (funcValue f "m") (fun v =>
          Printlnf (cat ["values = values + "; dq; ","; dq; " + "; v])));
      Printlnf (tab +:+ "return values[1:]");
      Printlnf "}" ].

(** The column list shared by [CreateTag] and [CreateEdge]. *)
Definition columnLines (s : Struct.t) : Emit :=
  forEachI (Struct.fields s) (fun i f =>
    block
      [ Printf (cat [tab; tab; Field.nickname f; tab; tab; tab;
                     toNebulaType f; tab; tab; tab; "COMMENT '";
                     Field.comment f; "'"]);
        when (negb (Nat.eqb i (length (Struct.fields s) - 1)))
             (Printlnf ",") ]).

Definition CreateTag (s : Struct.t) : Emit :=
  if negb (Struct.isTag s) then skip else
  block
    [ Printlnf (cat ["func (m *"; Struct.name s;
                     ") Create(session *nebula_go.Session) {"]);
      Printlnf (cat [tab; "nql:=`CREATE TAG IF NOT EXISTS ` + m.TagName() + `("]);
      columnLines s;
      Printlnf ");`";
      Printlnf "result,_ := session.Execute(nql)";
      Printlnf "checkResultSet(nql, result)";
      forEach (Struct.fields s) (fun f =>
        when (Field.isIndex f)
          (block
             [ Printf (cat ["nql = "; dq;
                            "CREATE TAG INDEX IF NOT EXISTS idx_";
                            Field.nickname f]);
               Printlnf (cat [" ON "; dq; " + m.TagName() + "; dq; "(";
                              Field.otherIndexFields f; ")"; dq]);
               Printlnf "result,_ = session.Execute(nql)";
               Printlnf "checkResultSet(nql, result)" ]));
      Printlnf "}" ].

Definition CreateEdge (s : Struct.t) : Emit :=
  if negb (Struct.isEdge s) then skip else
  block
    [ Printlnf (cat ["func (m *"; Struct.name s;
                     ") Create(session *nebula_go.Session) {"]);
      Printlnf (cat [tab; "nql := `CREATE EDGE IF NOT EXISTS ` + m.EdgeName() + `("]);
      columnLines s;
      Printlnf (tab +:+ ");`");
      Printlnf "result,_ := session.Execute(nql)";
      Printlnf "checkResultSet(nql, result)";
      Printlnf "}" ].

(** The package-level [Create]. *)
Definition Create (Structs : list Struct.t) : Emit :=
  block
    [ Printlnf "func Create(session *nebula_go.Session) {";
      forEach Structs (fun s =>
        when (Struct.isTag s || Struct.isEdge s)
             (Printlnf (cat ["(&"; Struct.name s; "{}).Create(session)"])));
      Printlnf "}" ].

Definition checkResultSet : Emit :=
  PrintlnfS
    (cat [nl;
          tab; "func checkResultSet(prefix string, res *nebula_go.ResultSet) {"; nl;
          tab; tab; "if !res.IsSucceed() {"; nl;
          tab; tab; tab; "panic(fmt.Sprintf("; dq;
            "%s, ErrorCode: %v, ErrorMsg: %s"; dq;
            ", prefix, res.GetErrorCode(), res.GetErrorMsg()))"; nl;
          tab; tab; "}"; nl;
          tab; "}"]).

(* ===================================================================== *)
(** ** The generator: [addPackage], [generate], [format], [main] *)
(* ===================================================================== *)

(** [packages.Package], as far as [addPackage] reads it. *)
Record LoadedPackage := mkLoaded {
  Name : string;
  Syntax : list AstFile
}.

Record Package := mkPackage {
  pkgName : string;
  files : list File.t
}.

Module Generator.
Record t := mk {
  buf : string;
  pkg : option Package;
  Structs : option (list Struct.t);
  trimPrefix : string;
  lineComment : bool
}.
End Generator.

(** The test that keeps the generator's own output out of the scan. *)
Definition isGenerated (file : AstFile) : bool :=
  match Comments file with
  | [] => false
  | c :: _ => Contains c "Code generated by"
  end.

(** The loop of [addPackage]; [continue] skips the append. *)
Fixpoint addFiles (trimPrefix : string) (lineComment : bool)
         (syntax : list AstFile) (acc : list File.t) : list File.t :=
  match syntax with
  | [] => acc
  | file :: rest =>
      if isGenerated file then addFiles trimPrefix lineComment rest acc
      else
        addFiles trimPrefix lineComment rest
                 (acc ++ [File.mk EmptyString file None [] trimPrefix
                                  lineComment])
  end.

Definition addPackage (g : Generator.t) (pkg : LoadedPackage) : Generator.t :=
  Generator.mk (Generator.buf g)
    (Some (mkPackage (Name pkg)
             (addFiles (Generator.trimPrefix g) (Generator.lineComment g)
                       (Syntax pkg) [])))
    (Generator.Structs g) (Generator.trimPrefix g) (Generator.lineComment g).

(** [file.allowTypeNames[allowTypeName] = 1] for every requested name. *)
Definition allowMap (names : list string) : gmap string Z :=
  fold_left (fun m n => <[n := 1%Z]> m) names ∅.

(** The body of the loop over [g.pkg.files], up to the walk; [file.file]
    is never nil for a file [addPackage] has added. *)
Definition scanFile (dir : string) (allowTypeNames : list string)
           (file : File.t) : result File.t :=
  let file := withDir file dir in
  let file :=
    if Nat.ltb 0 (length allowTypeNames)
    then withAllow file (Some (allowMap allowTypeNames))
    else file in
  inspectFile file.

Definition appendStructs (Structs : option (list Struct.t))
           (more : list Struct.t) : option (list Struct.t) :=
  match Structs with
  | None => Some more
  | Some ss => Some (ss ++ more)%list
  end.

Fixpoint scanFiles (dir : string) (allowTypeNames : list string)
         (fs : list File.t) (Structs : option (list Struct.t))
  : result (option (list Struct.t)) :=
  match fs with
  | [] => Ok Structs
  | file :: rest =>
      call file' <- scanFile dir allowTypeNames file in
      scanFiles dir allowTypeNames rest
                (appendStructs Structs (File.structs file'))
  end.

(** Ranging over a nil slice runs no turn. *)
Definition sliceOf {A} (s : option (list A)) : list A :=
  match s with None => [] | Some l => l end.

(** The body of the loop over [g.Structs]: twenty calls, in this order. *)
Definition emitStruct (s : Struct.t) : Emit :=
  block
    [ funcAllFields s;
      funcAllFieldsWithId s;
      funcTagName s;
      funcEdgeName s;
      funcNqlNameValues s;
      funcNqlValues s;
      funcNqlNames s;
      funcNqlBind s;
      CreateTag s;
      CreateEdge s;
      funcInsertTag s;
      funcInsertEdge s;
      funcBindRecord s;
      funcBindResult s;
      funcConditionItem s;
      funcBindOne s;
      funcOne s;
      funcList s;
      funcRemoveTag s;
      funcRemoveEdge s ].

(** Everything [generate] prints once [g.Structs] is known. *)
Definition emitAll (Structs : list Struct.t) : Emit :=
  block [ checkResultSet; forEach Structs emitStruct; Create Structs ].

Definition generate (g : Generator.t) (dir : string)
           (allowTypeNames : list string) : result Generator.t :=
  match Generator.pkg g with
  | None =>
      Panic "runtime error: invalid memory address or nil pointer dereference"
  | Some p =>
      call ss <- scanFiles dir allowTypeNames (files p) (Generator.Structs g) in
      call b <- emitAll (sliceOf ss) (Generator.buf g) in
      Ok (Generator.mk b (Generator.pkg g) ss (Generator.trimPrefix g)
                       (Generator.lineComment g))
  end.

(** What [main] prints before [generate]. *)
Definition header (cmdline pkgname : string) : Emit :=
  block
    [ (fun buf => Ok (cat [buf; "// Code generated by "; dq; "ngormgen ";
                           cmdline; dq; "; DO NOT EDIT."; nl]));
      Printf nl;
      (fun buf => Ok (cat [buf; "package "; pkgname]));
      Printf nl;
      Printf "import (";
      Printlnf (cat [tab; dq; "strconv"; dq]);
      Printlnf (cat [tab; "nebula_go "; dq;
                     "github.com/vesoft-inc/nebula-go/v3"; dq]);
      Printlnf (cat [tab; tab; dq; "strings"; dq]);
      Printlnf (cat [tab; tab; dq; "fmt"; dq]);
      Printlnf ")" ].

(** The command line, after [flag.Parse]; [cmdline] is
    [strings.Join(os.Args[1:], " ")] and [dir] the directory [main]
    settled on. *)
Record Flags := mkFlags {
  typeNames : string;
  trimprefix : string;
  linecomment : bool;
  cmdline : string;
  dir : string
}.

(** How a run ends: the bytes handed to [ioutil.WriteFile] together with
    the warnings logged on the way, or a panic before any write. *)
Inductive Outcome :=
| Wrote (log : list string) (src : string)
| Aborted (msg : string).

Section Run.

(** [format.Source]: the formatted text, or an error. *)
Variable Source : string -> string + string.

Definition format (g : Generator.t) : list string * string :=
  match Source (Generator.buf g) with
  | inr err =>
      ([ "warning: internal error: invalid Go generated: " +:+ err;
         "warning: compile the package to analyze the error" ],
       Generator.buf g)
  | inl src => ([], src)
  end.

(** The raw buffer [main] has accumulated when it calls [format]. *)
Definition emission (fl : Flags) (pkg : LoadedPackage)
  : result Generator.t :=
  let g := Generator.mk EmptyString None None (trimprefix fl)
                        (linecomment fl) in
  let g := addPackage g pkg in
  call b <- header (cmdline fl) (Name pkg) (Generator.buf g) in
  let g := Generator.mk b (Generator.pkg g) (Generator.Structs g)
                        (Generator.trimPrefix g) (Generator.lineComment g) in
  let types :=
    if Nat.ltb 0 (String.length (typeNames fl))
    then Split (typeNames fl) else [] in
  generate g (dir fl) types.

Definition main (fl : Flags) (pkg : LoadedPackage) : Outcome :=
  match emission fl pkg with
  | Panic m => Aborted m
  | Ok g => let '(log, src) := format g in Wrote log src
  end.

End Run.

(** The model [generate] has extracted when it starts printing. *)
Definition extracted (fl : Flags) (pkg : LoadedPackage)
  : result (list Struct.t) :=
  let types :=
    if Nat.ltb 0 (String.length (typeNames fl))
    then Split (typeNames fl) else [] in
  call ss <- scanFiles (dir fl) types
               (addFiles (trimprefix fl) (linecomment fl) (Syntax pkg) [])
               None in
  Ok (sliceOf ss).

(** The eight type names the codec knows. *)
Definition supported (t : string) : bool :=
  existsb (String.eqb t)
    ["string"; "int"; "int64"; "int32"; "int16"; "int8"; "float64";
     "float32"].

(* ===================================================================== *)
(** ** What the emitted methods compute *)
(* ===================================================================== *)

(** The emitted text is Go; the definitions of this section read it.  Each
    comes with a lemma below that ties it to the emitter it reads. *)

(** A method whose body is [return []string{ "e1", "e2", ... }], as
    [funcAllFields] and [funcAllFieldsWithId] print it. *)
Definition sliceMethod (recv method : string) (elems : list string) : Emit :=
  block
    [ Printlnf (cat ["func (m *"; recv; ") "; method; "() []string {"]);
      Printlnf (tab +:+ "return []string{");
      forEach elems (fun e => Printf (cat [tab; tab; dq; e; dq; ","]));
      Printlnf (tab +:+ "}");
      Printlnf "}" ].

(** The elements of the slice [AllFields()] returns. *)
Definition AllFields_run (s : Struct.t) : list string :=
  map Field.nickname (Struct.fields s).

(** A dispatch chain as data: per declared field the string the arm
    compares [f] with, and the Go expression the arm uses. *)
Definition Arms : Type := list (string * string).

Fixpoint mapR {A B} (f : A -> result B) (l : list A) : result (list B) :=
  match l with
  | [] => Ok []
  | x :: rest =>
      call y <- f x in
      call ys <- mapR f rest in
      Ok (y :: ys)
  end.

Definition armsOf (s : Struct.t) (body : Field.t -> result string)
  : result Arms :=
  mapR (fun f => call e <- body f in Ok (Field.nickname f, e))
       (Struct.fields s).

(** The arms of [NqlValues] and of [ConditionItem]. *)
Definition valueArms (s : Struct.t) : result Arms :=
  armsOf s (fun f => funcValue f "m").

Definition conditionArms (s : Struct.t) : result Arms :=
  armsOf s (fun f => funcEq f (cat ["v."; Struct.nickname s; "."]) "m" "v").

(** The chain as the emitters print it, from arm number [i] on. *)
Fixpoint chainFrom (i : nat) (arms : Arms) (wrap : string -> string) : Emit :=
  match arms with
  | [] => skip
  | (k, e) :: rest =>
      block
        [ block
            [ when (negb (Nat.eqb i 0)) (Printf "else ");
              Printlnf (cat ["if f == "; dq; k; dq; " {"]);
              Printlnf (wrap e);
              Printf "}" ];
          chainFrom (S i) rest wrap ]
  end.

Definition rangeArms (arms : Arms) (wrap : string -> string) : Emit :=
  when (Nat.ltb 0 (length arms))
    (block
       [ Printlnf (tab +:+ "for _, f := range fields {");
         chainFrom 0 arms wrap;
         Printlnf (nl +:+ tab +:+ "}") ]).

(** [if f == k1 {..} else if f == k2 {..} ...]: the first arm whose string
    equals the requested name runs, and no arm runs when none does. *)
Fixpoint firstArm (arms : Arms) (f : string) : option string :=
  match arms with
  | [] => None
  | (k, e) :: rest => if String.eqb f k then Some e else firstArm rest f
  end.

(** The expressions of the arms that run, over the requested names. *)
Definition matched (arms : Arms) (fields : list string) : list string :=
  flat_map (fun f => match firstArm arms f with
                     | Some e => [e]
                     | None => []
                     end) fields.

(** [ConditionItem(fields...)]: [result] starts empty and every arm that
    runs appends its expression; the expressions are kept as Go text. *)
Definition ConditionItem_run (arms : Arms) (fields : list string)
  : list string :=
  matched arms fields.

(** A predicate on the identity function, and one on a property. *)
Definition isIdentityPredicate (e : string) : bool := HasPrefix e "id(v)==".

Definition isPropertyPredicate (e : string) : bool := HasPrefix e (dq +:+ "v.").

Section Runtime.

(** The string a value expression of the emitted code evaluates to on the
    receiver [m]. *)
Variable eval : string -> string.

(** The loop of [NqlValues]: [values = values + "," + <expression>]. *)
Definition NqlValues_loop (arms : Arms) (fields : list string) : string :=
  fold_left (fun values f =>
               match firstArm arms f with
               | Some e => cat [values; ","; eval e]
               | None => values
               end) fields EmptyString.

(** [return values[1:]]: slicing the empty string from 1 panics. *)
Definition NqlValues_run (arms : Arms) (fields : list string)
  : result string :=
  match NqlValues_loop arms fields with
  | EmptyString =>
      Panic "runtime error: slice bounds out of range [1:0]"
  | String _ rest => Ok rest
  end.

End Runtime.

(** [NqlNames(fields...)]: [strings.Join(fields, ",")]. *)
Definition NqlNames_run (fields : list string) : string := Join fields ",".

(** A Go expression [x + y + z] whose operands are string literals or the
    call [m.TagName()]: how it is printed, and the string it evaluates to
    once [m.TagName()] has returned [label]. *)
Inductive GoPiece :=
| Lit (text : string)
| CallTagName.

Definition printPiece (p : GoPiece) : string :=
  match p with
  | Lit text => cat [dq; text; dq]
  | CallTagName => "m.TagName()"
  end.

Definition printPieces (ps : list GoPiece) : string :=
  Join (map printPiece ps) " + ".

Definition evalPieces (label : string) (ps : list GoPiece) : string :=
  cat (map (fun p => match p with Lit text => text | CallTagName => label end)
           ps).

(** The expression [CreateTag] assigns to [nql] for an indexed field, and
    the line that does it. *)
Definition indexPieces (f : Field.t) : list GoPiece :=
  [ Lit (cat ["CREATE TAG INDEX IF NOT EXISTS idx_"; Field.nickname f; " ON "]);
    CallTagName;
    Lit (cat ["("; Field.otherIndexFields f; ")"]) ].

Definition indexLine (f : Field.t) : string :=
  cat ["nql = "; printPieces (indexPieces f); nl].

(** Text that [Printf] prints as it is and that a Go string literal holds
    as it is: no percent sign, quote, backslash or line feed. *)
Definition plainByte (c : ascii) : bool :=
  negb (existsb (Nat.eqb (nat_of_ascii c)) [37; 34; 92; 10]).

Fixpoint plainText (s : string) : bool :=
  match s with
  | EmptyString => true
  | String c r => plainByte c && plainText r
  end.

(** An emitter is append-only when what it does to a buffer is what it
    does to the empty one, after the buffer. *)
Definition appends (e : Emit) : Prop :=
  forall buf, e buf = call t <- e EmptyString in Ok (buf +:+ t).

(** An emitter that cannot panic. *)
Definition succeeds (e : Emit) : Prop :=
  forall buf, exists b, e buf = Ok b.

(** An emitter that always panics. *)
Definition panics (e : Emit) : Prop :=
  forall buf, exists m, e buf = Panic m.

(** The generic templates, the ones [generate] prints whatever the kind. *)
Definition genericTemplates (s : Struct.t) : list Emit :=
  [ funcAllFields s;
    funcAllFieldsWithId s;
    funcNqlNameValues s;
    funcNqlValues s;
    funcNqlNames s;
    funcNqlBind s;
    funcBindRecord s;
    funcBindResult s;
    funcConditionItem s;
    funcBindOne s;
    funcOne s;
    funcList s ].

(** The templates that test [isTag] or [isEdge] first. *)
Definition kindTemplates (s : Struct.t) : list Emit :=
  [ funcTagName s; funcEdgeName s; CreateTag s; CreateEdge s;
    funcInsertTag s; funcInsertEdge s; funcRemoveTag s; funcRemoveEdge s ].

(** The identifier policy as the specification words it: lower-case of the
    declared name with the configured prefix trimmed. *)
Definition externalName_spec (prefix declaredName : string) : string :=
  ToLower (TrimPrefix declaredName prefix).

(* ===================================================================== *)
(** ** Sample declarations *)
(* ===================================================================== *)

Module Samples.

Definition tagMarker : AstField :=
  mkAstField [] (StarExpr (SelectorExpr (Ident "base") "Tag")) None
             EmptyString.

Definition edgeMarker : AstField :=
  mkAstField [] (SelectorExpr (Ident "base") "Edge") None EmptyString.

Definition plainField (name type : string) : AstField :=
  mkAstField [name] (Ident type) None EmptyString.

(** [type Person struct { *base.Tag; Name string; Age int32 }], where
    [Age] carries the tag key [idx] with an empty value. *)
Definition personDecl : Node :=
  TypeSpec "Person"
    (StructType
       [ tagMarker;
         plainField "Name" "string";
         mkAstField ["Age"] (Ident "int32") (Some (Some EmptyString))
                    EmptyString ]).

(** [type Place struct { *base.Tag; City string }], where [City] carries
    the tag key [idx] with the value [x,y]. *)
Definition placeDecl : Node :=
  TypeSpec "Place"
    (StructType
       [ tagMarker;
         mkAstField ["City"] (Ident "string") (Some (Some "x,y"))
                    EmptyString ]).

(** [type Note struct { Text string }]: no marker. *)
Definition noteDecl : Node :=
  TypeSpec "Note" (StructType [ plainField "Text" "string" ]).

(** Two vertex types whose names fold to the same label. *)
Definition userDecl : Node :=
  TypeSpec "User" (StructType [ tagMarker; plainField "Name" "string" ]).

Definition userUpperDecl : Node :=
  TypeSpec "USER" (StructType [ tagMarker; plainField "Mail" "string" ]).

(** [type Follow struct { base.Edge; Since int64 }] *)
Definition followDecl : Node :=
  TypeSpec "Follow" (StructType [ edgeMarker; plainField "Since" "int64" ]).

(** A vertex type with a field of type [bool]. *)
Definition switchDecl : Node :=
  TypeSpec "Switch" (StructType [ tagMarker; plainField "On" "bool" ]).

(** A vertex type that declares its own [ID]. *)
Definition accountDecl : Node :=
  TypeSpec "Account"
    (StructType
       [ tagMarker; plainField "ID" "int64"; plainField "Name" "string" ]).

(** A vertex type whose names carry the prefix [T]. *)
Definition tpersonDecl : Node :=
  TypeSpec "TPerson" (StructType [ tagMarker; plainField "TName" "string" ]).

Definition sourceFile (decls : list Node) : AstFile :=
  mkAstFile [] [OtherNode decls].

Definition packageOf (decls : list Node) : LoadedPackage :=
  mkLoaded "model" [sourceFile decls].

(** An earlier output of the generator: its banner is the first comment,
    and its package-level [Create] is a function without receiver. *)
Definition previousOutput : AstFile :=
  mkAstFile
    [ cat ["Code generated by "; dq; "ngormgen -type Person"; dq;
           "; DO NOT EDIT."; nl] ]
    [ OtherNode [personDecl]; FuncDecl None [] ].

Definition flags (types prefix : string) : Flags :=
  mkFlags types prefix false (cat ["-type "; types]) ".".

Definition gofmt : string -> string + string := fun src => inl src.

Definition gofmtFails : string -> string + string :=
  fun _ => inr "1:1: expected 'package', found 'EOF'".

(** The structs as [genStruct] builds them. *)
Definition person : Struct.t :=
  Eval vm_compute in
    mkStruct "Person"
      [ tagMarker; plainField "Name" "string";
        mkAstField ["Age"] (Ident "int32") (Some (Some EmptyString))
                   EmptyString ].

Definition place : Struct.t :=
  Eval vm_compute in
    mkStruct "Place"
      [ tagMarker;
        mkAstField ["City"] (Ident "string") (Some (Some "x,y"))
                   EmptyString ].

Definition note : Struct.t :=
  Eval vm_compute in mkStruct "Note" [ plainField "Text" "string" ].

Definition account : Struct.t :=
  Eval vm_compute in
    mkStruct "Account"
      [ tagMarker; plainField "ID" "int64"; plainField "Name" "string" ].

Definition switch : Struct.t :=
  Eval vm_compute in mkStruct "Switch" [ tagMarker; plainField "On" "bool" ].

Definition switchOn : Field.t :=
  Field.mk "On" "on" "bool" EmptyString false EmptyString.

Definition user : Struct.t :=
  Eval vm_compute in mkStruct "User" [ tagMarker; plainField "Name" "string" ].

Definition userUpper : Struct.t :=
  Eval vm_compute in mkStruct "USER" [ tagMarker; plainField "Mail" "string" ].

(** The arms of [Person]'s [NqlValues]. *)
Definition personValueArms : Arms :=
  Eval vm_compute in
    match valueArms person with Ok a => a | Panic _ => [] end.

(** A receiver: Person{Name: "Alice", Age: 30}. *)
Definition alice (e : string) : string :=
  if String.eqb e (cat [dq; bs; dq; dq; " + m.Name + "; dq; bs; dq; dq])
  then cat [dq; "Alice"; dq]
  else if String.eqb e "strconv.FormatInt(int64(m.Age), 10)" then "30"
  else EmptyString.

End Samples.

(* ===================================================================== *)
(** ** What a walk sees, and what the loops amount to *)
(* ===================================================================== *)

(** Whether a call returned. *)
Definition returns {A} (r : result A) : bool :=
  match r with Ok _ => true | Panic _ => false end.

(** The struct types declared in a tree, in the order [ast.Inspect] meets
    them. *)
Fixpoint structsOf (node : Node) : list Struct.t :=
  match node with
  | TypeSpec name (StructType flds) => [mkStruct name flds]
  | TypeSpec _ OtherType => []
  | FuncDecl _ body => flat_map structsOf body
  | OtherNode ch => flat_map structsOf ch
  end.

(** Whether a tree holds a function declaration without receiver. *)
Fixpoint hasBareFunc (node : Node) : bool :=
  match node with
  | TypeSpec _ _ => false
  | FuncDecl None _ => true
  | FuncDecl (Some _) body => existsb hasBareFunc body
  | OtherNode ch => existsb hasBareFunc ch
  end.

(** What one entry of a field list contributes: the fields it declares and
    the selector it embeds, if any. *)
Definition declaredFields (field : AstField) : list Field.t :=
  match FType field with
  | Ident typeName => map (mkField field typeName) (Names field)
  | _ => []
  end.

Definition embeds (marker : string) (field : AstField) : bool :=
  match FType field with
  | SelectorExpr _ sel => String.eqb sel marker
  | StarExpr (SelectorExpr _ sel) => String.eqb sel marker
  | _ => false
  end.

(** The [File] that [addPackage] builds for a syntax file. *)
Definition newFile (trimPrefix : string) (lineComment : bool) (file : AstFile)
  : File.t :=
  File.mk EmptyString file None [] trimPrefix lineComment.

(** The first field, in model order, whose type the codec does not know. *)
Definition firstUnsupported (ss : list Struct.t) : option Field.t :=
  find (fun f => negb (supported (Field.typeStr f)))
       (flat_map Struct.fields ss).

(** One column of a CREATE statement, as [CreateTag] and [CreateEdge] print
    it. *)
Definition columnText (f : Field.t) : string :=
  cat [tab; tab; Field.nickname f; tab; tab; tab; toNebulaType f; tab; tab;
       tab; "COMMENT '"; Field.comment f; "'"].

(** The column a query result carries for a field, and the one it carries
    for the identity. *)
Definition columnName (s : Struct.t) (f : Field.t) : string :=
  cat [Struct.nickname s; "_"; Field.nickname f].

(** Whether a requested name has an arm. *)
Definition hasArm (arms : Arms) (f : string) : bool :=
  match firstArm arms f with Some _ => true | None => false end.

(** A walk under an allow-list keeps the list non-nil, never adds a name to
    it, and gathers structs of listed names only. *)
Definition restricted (L : list string) (f : File.t) : Prop :=
  (forall s, In s (File.structs f) -> In (Struct.name s) L)
  /\ exists m, File.allowTypeNames f = Some m
               /\ forall k, is_Some (m !! k) -> In k L.

(** What [main] has printed when it calls [generate]. *)
Definition headerText (cmdline pkgname : string) : string :=
  cat ["// Code generated by "; dq; "ngormgen "; cmdline; dq;
       "; DO NOT EDIT."; nl; nl; "package "; pkgname; nl; "import (";
       tab; dq; "strconv"; dq; nl;
       tab; "nebula_go "; dq; "github.com/vesoft-inc/nebula-go/v3"; dq; nl;
       tab; tab; dq; "strings"; dq; nl;
       tab; tab; dq; "fmt"; dq; nl;
       ")"; nl].

(* ===================================================================== *)
(** ** Strings and the buffer: basic facts *)
(* ===================================================================== *)

(** stdpp keeps [String.append] folded under [simpl]; these two equations
    unfold it one step. *)
Lemma append_nil_l (b : string) : EmptyString +:+ b = b.
Proof. reflexivity. Qed.

Lemma append_cons (x : ascii) (a b : string) :
  String x a +:+ b = String x (a +:+ b).
Proof. reflexivity. Qed.

Lemma append_assoc (a b c : string) : (a +:+ b) +:+ c = a +:+ (b +:+ c).
Proof.
  induction a as [|x a IH]; [reflexivity|].
  rewrite !append_cons. now rewrite IH.
Qed.

Lemma append_nil_r (a : string) : a +:+ EmptyString = a.
Proof.
  induction a as [|x a IH]; [reflexivity|].
  rewrite append_cons. now rewrite IH.
Qed.

Lemma doPrintf_plain (s : string) :
  percentFree s = true -> doPrintf InText s = s.
Proof.
  induction s as [|c s IH]; simpl; [reflexivity|].
  intros H. apply andb_prop in H as [Hc Hs].
  destruct (Ascii.eqb c percent); [discriminate|].
  now rewrite IH.
Qed.

Lemma Sprintf0_plain (s : string) : percentFree s = true -> Sprintf0 s = s.
Proof. apply doPrintf_plain. Qed.

Lemma percentFree_append (a b : string) :
  percentFree (a +:+ b) = percentFree a && percentFree b.
Proof.
  induction a as [|c a IH]; [reflexivity|].
  rewrite append_cons. simpl. now rewrite IH, andb_assoc.
Qed.

Lemma appends_Printf (s : string) : appends (Printf s).
Proof. intros buf. reflexivity. Qed.

Lemma appends_Printlnf (s : string) : appends (Printlnf s).
Proof. intros buf. reflexivity. Qed.

Lemma appends_PrintlnfS (s : string) : appends (PrintlnfS s).
Proof. intros buf. reflexivity. Qed.

Lemma appends_skip : appends skip.
Proof. intros buf. simpl. now rewrite append_nil_r. Qed.

Lemma appends_block (l : list Emit) : Forall appends l -> appends (block l).
Proof.
  induction 1 as [|e l He _ IH]; intros buf; simpl.
  - now rewrite append_nil_r.
  - rewrite (He buf). destruct (e EmptyString) as [t|m]; simpl; [|reflexivity].
    rewrite (IH (buf +:+ t)), (IH t).
    destruct (block l EmptyString) as [u|m]; simpl; [|reflexivity].
    now rewrite append_assoc.
Qed.

Lemma appends_when (b : bool) (e : Emit) : appends e -> appends (when b e).
Proof. destruct b; simpl; [trivial | intros _; apply appends_skip]. Qed.

Lemma appends_if (b : bool) (e1 e2 : Emit) :
  appends e1 -> appends e2 -> appends (if b then e1 else e2).
Proof. now destruct b. Qed.

Lemma appends_emitR (r : result string) (k : string -> Emit) :
  (forall v, appends (k v)) -> appends (emitR r k).
Proof.
  intros H buf. unfold emitR. destruct r as [v|m]; simpl; [apply H | reflexivity].
Qed.

Lemma appends_forEach {A} (l : list A) (body : A -> Emit) :
  (forall x, appends (body x)) -> appends (forEach l body).
Proof.
  intros H. apply appends_block. induction l; constructor; auto.
Qed.

Lemma appends_forEachFrom {A} (l : list A) (body : nat -> A -> Emit) :
  (forall i x, appends (body i x)) -> forall i, appends (forEachFrom i l body).
Proof.
  intros H. induction l as [|x l IH]; intros i; cbn [forEachFrom].
  - apply appends_skip.
  - apply appends_block. repeat constructor; auto.
Qed.

Lemma appends_forEachI {A} (l : list A) (body : nat -> A -> Emit) :
  (forall i x, appends (body i x)) -> appends (forEachI l body).
Proof. intros H. now apply appends_forEachFrom. Qed.

Lemma appends_rangeFields (s : Struct.t) (arm : Field.t -> Emit) :
  (forall f, appends (arm f)) -> appends (rangeFields s arm).
Proof.
  intros H. unfold rangeFields. apply appends_when, appends_block.
  constructor; [apply appends_Printlnf|].
  constructor; [|constructor; [apply appends_Printlnf|constructor]].
  apply appends_forEachI. intros i f. apply appends_block.
  constructor; [apply appends_when, appends_Printf|].
  constructor; [apply appends_Printlnf|].
  constructor; [apply H|].
  constructor; [apply appends_Printf|constructor].
Qed.

(** Composite emitters are taken apart by these rules. *)
Ltac appends_step :=
  lazymatch goal with
  | |- appends (Printf _) => apply appends_Printf
  | |- appends (Printlnf _) => apply appends_Printlnf
  | |- appends Printlnf => fail
  | |- appends (PrintlnfS _) => apply appends_PrintlnfS
  | |- appends skip => apply appends_skip
  | |- appends (block _) => apply appends_block
  | |- Forall appends (_ :: _) => constructor
  | |- Forall appends [] => constructor
  | |- appends (when _ _) => apply appends_when
  | |- appends (if _ then _ else _) => apply appends_if
  | |- appends (emitR _ _) => apply appends_emitR; intros ?; cbv beta
  | |- appends (forEach _ _) => apply appends_forEach; intros ?; cbv beta
  | |- appends (forEachI _ _) => apply appends_forEachI; intros ? ?; cbv beta
  | |- appends (rangeFields _ _) =>
      apply appends_rangeFields; intros ?; cbv beta
  end.

Ltac solve_appends := repeat appends_step.

Lemma appends_emitStruct (s : Struct.t) : appends (emitStruct s).
Proof.
  unfold emitStruct, funcAllFields, funcAllFieldsWithId, funcTagName,
    funcEdgeName, funcNqlNameValues, funcNqlValues, funcNqlNames, funcNqlBind,
    CreateTag, CreateEdge, columnLines, funcInsertTag, funcInsertEdge,
    funcBindRecord, funcBindResult, funcConditionItem, funcBindOne, funcOne,
    funcList, funcRemoveTag, funcRemoveEdge.
  solve_appends.
Qed.

Lemma appends_Create (ss : list Struct.t) : appends (Create ss).
Proof. unfold Create. solve_appends. Qed.

Lemma appends_emitAll (ss : list Struct.t) : appends (emitAll ss).
Proof.
  unfold emitAll, checkResultSet. solve_appends.
  - apply appends_emitStruct.
  - apply appends_Create.
Qed.

(* ===================================================================== *)
(** ** Panics and successes of the emitters *)
(* ===================================================================== *)

Lemma block_cons (e : Emit) (l : list Emit) (buf : string) :
  block (e :: l) buf = call b <- e buf in block l b.
Proof. reflexivity. Qed.

Lemma appends_ok (e : Emit) (t : string) :
  appends e -> e EmptyString = Ok t -> forall buf, e buf = Ok (buf +:+ t).
Proof. intros He H buf. now rewrite (He buf), H. Qed.

Lemma block_In_panics (l : list Emit) (e : Emit) :
  In e l -> panics e -> panics (block l).
Proof.
  intros Hin He. induction l as [|a l IH]; [destruct Hin|].
  intros buf. cbn [block]. destruct Hin as [->|Hin].
  - destruct (He buf) as [m ->]. now exists m.
  - destruct (a buf) as [b|m]; cbn [bindR]; [apply IH, Hin | now exists m].
Qed.

Lemma forEach_In_panics {A} (l : list A) (body : A -> Emit) (x : A) :
  In x l -> panics (body x) -> panics (forEach l body).
Proof.
  intros Hin Hx. apply (block_In_panics _ (body x)); [|exact Hx].
  now apply in_map.
Qed.

Lemma forEachFrom_In_panics {A} (l : list A) (body : nat -> A -> Emit) (x : A) :
  In x l -> (forall i, panics (body i x)) ->
  forall i, panics (forEachFrom i l body).
Proof.
  intros Hin Hx. induction l as [|a l IH]; [destruct Hin|].
  intros i. cbn [forEachFrom]. destruct Hin as [->|Hin].
  - apply (block_In_panics _ (body i x)); [now left | apply Hx].
  - apply (block_In_panics _ (forEachFrom (S i) l body)).
    + right. now left.
    + apply IH, Hin.
Qed.

Lemma rangeFields_panics (s : Struct.t) (arm : Field.t -> Emit) (f : Field.t) :
  In f (Struct.fields s) -> panics (arm f) -> panics (rangeFields s arm).
Proof.
  intros Hin Hf. unfold rangeFields.
  destruct (Struct.fields s) as [|f0 fs] eqn:E; [destruct Hin|].
  cbn [length Nat.ltb Nat.leb when].
  eapply block_In_panics; [right; left; reflexivity|].
  apply (forEachFrom_In_panics _ _ f Hin). intros i.
  eapply block_In_panics; [right; right; left; reflexivity | exact Hf].
Qed.

Lemma funcValue_unsupported (f : Field.t) (structName : string) :
  supported (Field.typeStr f) = false ->
  funcValue f structName = Panic (Field.typeStr f +:+ "unsupport").
Proof.
  unfold supported, funcValue. cbn [existsb]. intros H.
  repeat (apply orb_false_elim in H as [-> H]). reflexivity.
Qed.

Lemma funcNqlNameValues_panics (s : Struct.t) (f : Field.t) :
  In f (Struct.fields s) -> supported (Field.typeStr f) = false ->
  panics (funcNqlNameValues s).
Proof.
  intros Hin Hf. unfold funcNqlNameValues.
  eapply block_In_panics; [right; right; left; reflexivity|].
  apply (rangeFields_panics _ _ f Hin).
  intros buf. unfold emitR. rewrite funcValue_unsupported by exact Hf.
  now eexists.
Qed.

Lemma emitStruct_panics (s : Struct.t) (f : Field.t) :
  In f (Struct.fields s) -> supported (Field.typeStr f) = false ->
  panics (emitStruct s).
Proof.
  intros Hin Hf. unfold emitStruct.
  eapply block_In_panics;
    [do 4 right; left; reflexivity | now apply (funcNqlNameValues_panics s f)].
Qed.

Lemma emitAll_panics (ss : list Struct.t) (s : Struct.t) (f : Field.t) :
  In s ss -> In f (Struct.fields s) -> supported (Field.typeStr f) = false ->
  panics (emitAll ss).
Proof.
  intros Hs Hin Hf. unfold emitAll.
  eapply block_In_panics; [right; left; reflexivity|].
  apply (forEach_In_panics _ _ s Hs). now apply (emitStruct_panics s f).
Qed.

(* ===================================================================== *)
(** ** The run as a whole *)
(* ===================================================================== *)

Lemma header_ok (c n : string) : exists h, header c n EmptyString = Ok h.
Proof. eexists. reflexivity. Qed.

(** After the banner, the run is [emitAll] on the extracted model. *)
Lemma emission_extracted (fl : Flags) (pkg : LoadedPackage) (l : list Struct.t) :
  extracted fl pkg = Ok l ->
  exists (h : string) (mk : string -> Generator.t),
    (forall b, Generator.buf (mk b) = b) /\
    emission fl pkg = call b <- emitAll l h in Ok (mk b).
Proof.
  unfold extracted, emission, generate, addPackage.
  cbn [Generator.buf Generator.pkg Generator.Structs Generator.trimPrefix
       Generator.lineComment files].
  destruct (header_ok (cmdline fl) (Name pkg)) as [h ->]. cbn [bindR].
  destruct (scanFiles _ _ _ None) as [ss|m]; cbn [bindR]; [|discriminate].
  intros [= <-]. exists h. eexists (fun b => Generator.mk b _ _ _ _).
  split; [reflexivity | reflexivity].
Qed.

Lemma addFiles_skips (tp : string) (lc : bool) (before after : list AstFile)
      (file : AstFile) (acc : list File.t) :
  isGenerated file = true ->
  addFiles tp lc (before ++ file :: after) acc =
  addFiles tp lc (before ++ after) acc.
Proof.
  intros Hgen. revert acc.
  induction before as [|x before IH]; intros acc; cbn [app addFiles].
  - now rewrite Hgen.
  - destruct (isGenerated x); apply IH.
Qed.

(** C10. A scanned file whose first comment group contains the text
    "Code generated by" is left out of the scan whatever the allow-list:
    the extracted model and the outcome of the whole run are those of the
    package without that file, so the file contributes no entity and no
    template. *)
Theorem generated_file_contributes_nothing
        (Source : string -> string + string) (fl : Flags) (name : string)
        (before after : list AstFile) (file : AstFile) (c : string)
        (cs : list string) :
  Comments file = c :: cs ->
  Contains c "Code generated by" = true ->
  extracted fl (mkLoaded name (before ++ file :: after)) =
  extracted fl (mkLoaded name (before ++ after))
  /\ main Source fl (mkLoaded name (before ++ file :: after)) =
     main Source fl (mkLoaded name (before ++ after)).
Proof.
  intros Hc Hgen.
  assert (G : isGenerated file = true) by (unfold isGenerated; now rewrite Hc).
  split.
  - unfold extracted. cbn [Syntax]. now rewrite addFiles_skips.
  - unfold main, emission, addPackage. cbn [Syntax Name Generator.buf
      Generator.pkg Generator.Structs Generator.trimPrefix
      Generator.lineComment].
    now rewrite addFiles_skips.
Qed.

Lemma generated_file_contributes_nothing_witness :
  extracted (Samples.flags EmptyString EmptyString)
    (mkLoaded "model"
       ([] ++ Samples.previousOutput ::
              [Samples.sourceFile [Samples.followDecl]])) =
  extracted (Samples.flags EmptyString EmptyString)
    (mkLoaded "model" ([] ++ [Samples.sourceFile [Samples.followDecl]]))
  /\ main Samples.gofmt (Samples.flags EmptyString EmptyString)
       (mkLoaded "model"
          ([] ++ Samples.previousOutput ::
                 [Samples.sourceFile [Samples.followDecl]])) =
     main Samples.gofmt (Samples.flags EmptyString EmptyString)
       (mkLoaded "model" ([] ++ [Samples.sourceFile [Samples.followDecl]])).
Proof.
  apply (generated_file_contributes_nothing Samples.gofmt
           (Samples.flags EmptyString EmptyString) "model" []
           [Samples.sourceFile [Samples.followDecl]] Samples.previousOutput
           (cat ["Code generated by "; dq; "ngormgen -type Person"; dq;
                 "; DO NOT EDIT."; nl]) []).
  - reflexivity.
  - vm_compute. reflexivity.
Defined.

(** C9. When [format.Source] fails on the accumulated text, the run does
    not abort: it logs the two warnings and writes the raw buffer, byte for
    byte. *)
Theorem format_failure_writes_raw_buffer
        (Source : string -> string + string) (fl : Flags)
        (pkg : LoadedPackage) (g : Generator.t) (err : string) :
  emission fl pkg = Ok g ->
  Source (Generator.buf g) = inr err ->
  main Source fl pkg =
  Wrote [ "warning: internal error: invalid Go generated: " +:+ err;
          "warning: compile the package to analyze the error" ]
        (Generator.buf g).
Proof.
  intros He Hs. unfold main, format. now rewrite He, Hs.
Qed.

Lemma format_failure_writes_raw_buffer_witness :
  exists g,
    emission (Samples.flags "Person" EmptyString)
             (Samples.packageOf [Samples.personDecl]) = Ok g
    /\ main Samples.gofmtFails (Samples.flags "Person" EmptyString)
            (Samples.packageOf [Samples.personDecl]) =
       Wrote [ "warning: internal error: invalid Go generated: " +:+
               "1:1: expected 'package', found 'EOF'";
               "warning: compile the package to analyze the error" ]
             (Generator.buf g).
Proof.
  destruct (emission (Samples.flags "Person" EmptyString)
                     (Samples.packageOf [Samples.personDecl]))
    as [g|m] eqn:E.
  - exists g. split; [reflexivity|].
    apply (format_failure_writes_raw_buffer Samples.gofmtFails _ _ g
             "1:1: expected 'package', found 'EOF'" E).
    reflexivity.
  - vm_compute in E. discriminate E.
Defined.

(** C8. If the extracted model holds an entity with a field whose type is
    not one of string, int, int8, int16, int32, int64, float32, float64,
    the run panics inside [generate]: [main] never reaches [format] nor
    the write, so no output, not even a partial one, is produced. *)
Theorem unsupported_field_type_aborts
        (Source : string -> string + string) (fl : Flags)
        (pkg : LoadedPackage) (ss : list Struct.t) (s : Struct.t)
        (f : Field.t) :
  extracted fl pkg = Ok ss ->
  In s ss ->
  In f (Struct.fields s) ->
  supported (Field.typeStr f) = false ->
  exists msg, main Source fl pkg = Aborted msg.
Proof.
  intros Hx Hs Hin Hf.
  destruct (emission_extracted fl pkg ss Hx) as (h & mk & _ & He).
  destruct (emitAll_panics ss s f Hs Hin Hf h) as [m Hm].
  exists m. unfold main. now rewrite He, Hm.
Qed.

Lemma unsupported_field_type_aborts_witness :
  exists msg,
    main Samples.gofmt (Samples.flags EmptyString EmptyString)
         (Samples.packageOf [Samples.personDecl; Samples.switchDecl]) =
    Aborted msg.
Proof.
  apply (unsupported_field_type_aborts Samples.gofmt
           (Samples.flags EmptyString EmptyString)
           (Samples.packageOf [Samples.personDecl; Samples.switchDecl])
           [Samples.person; Samples.switch] Samples.switch Samples.switchOn).
  - vm_compute. reflexivity.
  - right. left. reflexivity.
  - left. reflexivity.
  - reflexivity.
Defined.

(* ===================================================================== *)
(** ** When emission goes through *)
(* ===================================================================== *)

Lemma succeeds_Printf (s : string) : succeeds (Printf s).
Proof. intros buf. now eexists. Qed.

Lemma succeeds_Printlnf (s : string) : succeeds (Printlnf s).
Proof. intros buf. now eexists. Qed.

Lemma succeeds_PrintlnfS (s : string) : succeeds (PrintlnfS s).
Proof. intros buf. now eexists. Qed.

Lemma succeeds_skip : succeeds skip.
Proof. intros buf. now eexists. Qed.

Lemma succeeds_block (l : list Emit) : Forall succeeds l -> succeeds (block l).
Proof.
  induction 1 as [|e l He _ IH]; intros buf; cbn [block].
  - now eexists.
  - destruct (He buf) as [b ->]. cbn [bindR]. apply IH.
Qed.

Lemma succeeds_when (b : bool) (e : Emit) : succeeds e -> succeeds (when b e).
Proof. destruct b; cbn [when]; [trivial | intros _; apply succeeds_skip]. Qed.

Lemma succeeds_if (b : bool) (e1 e2 : Emit) :
  succeeds e1 -> succeeds e2 -> succeeds (if b then e1 else e2).
Proof. now destruct b. Qed.

Lemma succeeds_emitR (r : result string) (k : string -> Emit) :
  (exists v, r = Ok v) -> (forall v, succeeds (k v)) -> succeeds (emitR r k).
Proof. intros [v ->] H buf. unfold emitR. cbn [bindR]. apply H. Qed.

Lemma succeeds_forEach {A} (l : list A) (body : A -> Emit) :
  (forall x, In x l -> succeeds (body x)) -> succeeds (forEach l body).
Proof.
  intros H. apply succeeds_block. induction l as [|x l IH]; constructor.
  - apply H. now left.
  - apply IH. intros y Hy. apply H. now right.
Qed.

Lemma succeeds_forEachFrom {A} (l : list A) (body : nat -> A -> Emit) :
  (forall i x, In x l -> succeeds (body i x)) ->
  forall i, succeeds (forEachFrom i l body).
Proof.
  induction l as [|x l IH]; intros H i; cbn [forEachFrom].
  - apply succeeds_skip.
  - apply succeeds_block. constructor; [apply H; now left|].
    constructor; [|constructor]. apply IH. intros j y Hy. apply H. now right.
Qed.

Lemma succeeds_forEachI {A} (l : list A) (body : nat -> A -> Emit) :
  (forall i x, In x l -> succeeds (body i x)) -> succeeds (forEachI l body).
Proof. intros H. now apply succeeds_forEachFrom. Qed.

Lemma succeeds_rangeFields (s : Struct.t) (arm : Field.t -> Emit) :
  (forall f, In f (Struct.fields s) -> succeeds (arm f)) ->
  succeeds (rangeFields s arm).
Proof.
  intros H. unfold rangeFields. apply succeeds_when, succeeds_block.
  constructor; [apply succeeds_Printlnf|].
  constructor; [|constructor; [apply succeeds_Printlnf|constructor]].
  apply succeeds_forEachI. intros i f Hf. apply succeeds_block.
  constructor; [apply succeeds_when, succeeds_Printf|].
  constructor; [apply succeeds_Printlnf|].
  constructor; [apply H, Hf|].
  constructor; [apply succeeds_Printf|constructor].
Qed.

Lemma funcValue_supported (f : Field.t) (structName : string) :
  supported (Field.typeStr f) = true ->
  exists v, funcValue f structName = Ok v.
Proof.
  unfold supported, funcValue. cbn [existsb].
  repeat (destruct (String.eqb (Field.typeStr f) _); [now eexists|]).
  discriminate.
Qed.

Lemma funcEq_supported (f : Field.t) (prefix structName v : string) :
  supported (Field.typeStr f) = true ->
  exists e, funcEq f prefix structName v = Ok e.
Proof.
  intros H. destruct (funcValue_supported f structName H) as [x Hx].
  unfold funcEq. rewrite Hx. cbn [bindR].
  destruct (String.eqb (Field.name f) (Field.name IDFIELD)); now eexists.
Qed.

Lemma Field_funcBindResult_supported (f : Field.t) (sn prefix : string) :
  supported (Field.typeStr f) = true ->
  exists t, Field_funcBindResult f sn prefix = Ok t.
Proof.
  unfold supported, Field_funcBindResult. cbn [existsb].
  repeat (destruct (String.eqb (Field.typeStr f) _); [now eexists|]).
  discriminate.
Qed.

Ltac succeeds_step :=
  lazymatch goal with
  | |- succeeds (Printf _) => apply succeeds_Printf
  | |- succeeds (Printlnf _) => apply succeeds_Printlnf
  | |- succeeds (PrintlnfS _) => apply succeeds_PrintlnfS
  | |- succeeds skip => apply succeeds_skip
  | |- succeeds (block _) => apply succeeds_block
  | |- Forall succeeds (_ :: _) => constructor
  | |- Forall succeeds [] => constructor
  | |- succeeds (when _ _) => apply succeeds_when
  | |- succeeds (if _ then _ else _) => apply succeeds_if
  | |- succeeds (forEach _ _) => apply succeeds_forEach; intros ? ?; cbv beta
  | |- succeeds (forEachI _ _) =>
      apply succeeds_forEachI; intros ? ? ?; cbv beta
  | |- succeeds (rangeFields _ _) =>
      apply succeeds_rangeFields; intros ? ?; cbv beta
  end.

Ltac solve_succeeds := repeat succeeds_step.

Lemma emitStruct_succeeds (s : Struct.t) :
  (forall f, In f (Struct.fields s) -> supported (Field.typeStr f) = true) ->
  succeeds (emitStruct s).
Proof.
  intros Hs.
  unfold emitStruct, funcAllFields, funcAllFieldsWithId, funcTagName,
    funcEdgeName, funcNqlNameValues, funcNqlValues, funcNqlNames, funcNqlBind,
    CreateTag, CreateEdge, columnLines, funcInsertTag, funcInsertEdge,
    funcBindRecord, funcBindResult, funcConditionItem, funcBindOne, funcOne,
    funcList, funcRemoveTag, funcRemoveEdge.
  solve_succeeds;
    (apply succeeds_emitR;
     [ first [ apply funcValue_supported; now apply Hs
             | apply funcEq_supported; now apply Hs
             | apply Field_funcBindResult_supported; first [now apply Hs | reflexivity] ]
     | intros ?; apply succeeds_Printlnf ]).
Qed.

Lemma emitAll_succeeds (ss : list Struct.t) :
  (forall s f, In s ss -> In f (Struct.fields s) ->
               supported (Field.typeStr f) = true) ->
  succeeds (emitAll ss).
Proof.
  intros H. unfold emitAll, checkResultSet, Create. solve_succeeds.
  apply emitStruct_succeeds. intros f Hf. eapply H; eassumption.
Qed.

(** The banner [main] prints first is a comment whose text holds the
    marker, so a file that starts with it is one [addPackage] skips. *)
Lemma banner_is_marked (cmd pkgname : string) (decls : list Node)
      (more : list string) :
  (exists rest,
      header cmd pkgname EmptyString =
      Ok (cat ["// "; "Code generated by "; dq; "ngormgen "; cmd; dq;
               "; DO NOT EDIT."; nl] +:+ rest))
  /\ isGenerated
       (mkAstFile
          (cat ["Code generated by "; dq; "ngormgen "; cmd; dq;
                "; DO NOT EDIT."; nl] :: more) decls) = true.
Proof.
  split; [|reflexivity].
  unfold header. rewrite block_cons. cbn [bindR].
  match goal with
  | |- context [block ?l ?b] =>
      assert (HA : appends (block l));
      [ apply appends_block;
        constructor; [apply appends_Printf|];
        constructor; [intros buf; reflexivity|];
        solve_appends
      | assert (HS : succeeds (block l));
        [ apply succeeds_block;
          constructor; [apply succeeds_Printf|];
          constructor; [intros buf; now eexists|];
          solve_succeeds
        | destruct (HS EmptyString) as [t Ht];
          rewrite (appends_ok _ _ HA Ht b) ] ]
  end.
  exists t. reflexivity.
Qed.

(** Whatever a block prints contains what each of its statements prints. *)
Lemma block_In_written (l : list Emit) (e : Emit) :
  Forall appends l -> In e l ->
  forall out, block l EmptyString = Ok out ->
  exists t pre post, e EmptyString = Ok t /\ out = pre +:+ t +:+ post.
Proof.
  induction 1 as [|a l Ha Hl IH]; intros Hin out Hout; [destruct Hin|].
  cbn [block] in Hout.
  destruct (a EmptyString) as [ta|m] eqn:Ea; cbn [bindR] in Hout;
    [|discriminate].
  rewrite (appends_block l Hl ta) in Hout.
  destruct (block l EmptyString) as [u|m] eqn:Eu; cbn [bindR] in Hout;
    [|discriminate].
  injection Hout as <-.
  destruct Hin as [<-|Hin].
  - exists ta, EmptyString, u. split; [exact Ea | reflexivity].
  - destruct (IH Hin u eq_refl) as (t & pre & post & Ht & ->).
    exists t, (ta +:+ pre), post. split; [exact Ht|].
    now rewrite append_assoc.
Qed.

Lemma emitAll_written (ss : list Struct.t) (s : Struct.t) (out : string) :
  In s ss -> emitAll ss EmptyString = Ok out ->
  exists t pre post,
    emitStruct s EmptyString = Ok t /\ out = pre +:+ t +:+ post.
Proof.
  intros Hs Hout. unfold emitAll in Hout.
  assert (HF : Forall appends
                 [checkResultSet; forEach ss emitStruct; Create ss]).
  { constructor; [apply appends_PrintlnfS|].
    constructor; [apply appends_forEach, appends_emitStruct|].
    constructor; [apply appends_Create | constructor]. }
  assert (HI : In (forEach ss emitStruct)
                  [checkResultSet; forEach ss emitStruct; Create ss])
    by (right; left; reflexivity).
  destruct (block_In_written _ _ HF HI out Hout) as (u & pre & post & Hu & ->).
  destruct (block_In_written (map emitStruct ss) (emitStruct s))
    with (out := u) as (t & pre' & post' & Ht & ->).
  - clear. induction ss; constructor; auto using appends_emitStruct.
  - now apply in_map.
  - exact Hu.
  - exists t, (pre +:+ pre'), (post' +:+ post). split; [exact Ht|].
    now rewrite !append_assoc.
Qed.

(** An allowed struct type is appended to [f.structs] whatever is already
    there. *)
Lemma genStruct_appends (name : string) (flds : list AstField) (f : File.t) :
  allowTypeName f name = true ->
  exists b f',
    genStruct (TypeSpec name (StructType flds)) f = Ok (b, f')
    /\ File.structs f' = (File.structs f ++ [mkStruct name flds])%list.
Proof.
  intros Ha. cbn [genStruct]. rewrite Ha. cbn [negb].
  destruct (Nat.eqb _ 1); eexists _, _; split; reflexivity.
Qed.

(** C7, as the code has it.  No step compares external names: the visitor
    appends every allowed struct type to the model whatever the model
    already holds, and once extraction has completed and every field type
    is one the codec knows, the run writes its output, which holds the
    templates of every extracted entity, two entities with one external name
    included. *)
Theorem same_external_name_is_not_an_error
        (Source : string -> string + string) (fl : Flags)
        (pkg : LoadedPackage) (ss : list Struct.t) :
  (forall name flds f,
     allowTypeName f name = true ->
     exists b f',
       genStruct (TypeSpec name (StructType flds)) f = Ok (b, f')
       /\ File.structs f' = (File.structs f ++ [mkStruct name flds])%list)
  /\ (extracted fl pkg = Ok ss ->
      (forall s f, In s ss -> In f (Struct.fields s) ->
                   supported (Field.typeStr f) = true) ->
      exists g log src,
        emission fl pkg = Ok g
        /\ main Source fl pkg = Wrote log src
        /\ forall s, In s ss ->
             exists t pre post,
               emitStruct s EmptyString = Ok t
               /\ Generator.buf g = pre +:+ t +:+ post).
Proof.
  split; [intros name flds f; apply genStruct_appends|].
  intros Hx Hsup.
  destruct (emission_extracted fl pkg ss Hx) as (h & mk & Hmk & He).
  destruct (emitAll_succeeds ss Hsup EmptyString) as [out Hout].
  pose proof (appends_ok _ _ (appends_emitAll ss) Hout h) as Hh.
  rewrite Hh in He. cbn [bindR] in He.
  exists (mk (h +:+ out)), (fst (format Source (mk (h +:+ out)))),
         (snd (format Source (mk (h +:+ out)))).
  split; [exact He|]. split.
  - unfold main. rewrite He. now destruct (format Source _).
  - intros s Hs.
    destruct (emitAll_written ss s out Hs Hout) as (t & pre & post & Ht & ->).
    exists t, (h +:+ pre), post. split; [exact Ht|].
    now rewrite Hmk, append_assoc.
Qed.

Lemma same_external_name_is_not_an_error_witness :
  exists g log src,
    emission (Samples.flags EmptyString EmptyString)
             (Samples.packageOf [Samples.userDecl; Samples.userUpperDecl])
    = Ok g
    /\ main Samples.gofmt (Samples.flags EmptyString EmptyString)
            (Samples.packageOf [Samples.userDecl; Samples.userUpperDecl])
       = Wrote log src
    /\ forall s, In s [Samples.user; Samples.userUpper] ->
         exists t pre post,
           emitStruct s EmptyString = Ok t
           /\ Generator.buf g = pre +:+ t +:+ post.
Proof.
  apply (proj2 (same_external_name_is_not_an_error Samples.gofmt
                  (Samples.flags EmptyString EmptyString)
                  (Samples.packageOf [Samples.userDecl; Samples.userUpperDecl])
                  [Samples.user; Samples.userUpper])).
  - vm_compute. reflexivity.
  - intros s f [<-|[<-|[]]] [<-|[]]; reflexivity.
Defined.

(** C7 as stated fails: [User] and [USER] are two vertex entities with the
    one external name [user]; extraction keeps both and the run writes its
    output. *)
Lemma same_external_name_counterexample :
  extracted (Samples.flags EmptyString EmptyString)
            (Samples.packageOf [Samples.userDecl; Samples.userUpperDecl])
  = Ok [Samples.user; Samples.userUpper]
  /\ Struct.isTag Samples.user = true
  /\ Struct.isTag Samples.userUpper = true
  /\ Struct.name Samples.user <> Struct.name Samples.userUpper
  /\ Struct.nickname Samples.user = Struct.nickname Samples.userUpper
  /\ exists log src,
       main Samples.gofmt (Samples.flags EmptyString EmptyString)
            (Samples.packageOf [Samples.userDecl; Samples.userUpperDecl])
       = Wrote log src.
Proof.
  split; [vm_compute; reflexivity|].
  split; [reflexivity|]. split; [reflexivity|].
  split; [discriminate|]. split; [reflexivity|].
  eexists _, _. vm_compute. reflexivity.
Defined.

(* ===================================================================== *)
(** ** The identifier policy *)
(* ===================================================================== *)

Lemma addAstField_names (s : Struct.t) (field : AstField) :
  Struct.name (addAstField s field) = Struct.name s
  /\ Struct.nickname (addAstField s field) = Struct.nickname s.
Proof.
  unfold addAstField, markSelector.
  destruct (FType field) as [t|x sel|x|]; try (split; reflexivity).
  - destruct (String.eqb sel POTYPE_TAG); [split; reflexivity|].
    destruct (String.eqb sel POTYPE_EDGE); split; reflexivity.
  - destruct x as [t|y sel|y|]; try (split; reflexivity).
    destruct (String.eqb sel POTYPE_TAG); [split; reflexivity|].
    destruct (String.eqb sel POTYPE_EDGE); split; reflexivity.
Qed.

Lemma mkField_nickname (field : AstField) (t name : string) :
  Field.name (mkField field t name) = name
  /\ Field.nickname (mkField field t name) = ToLower name.
Proof. unfold mkField. destruct (Tag field) as [[v|]|]; split; reflexivity. Qed.

Lemma addAstField_fields (s : Struct.t) (field : AstField) :
  (forall f, In f (Struct.fields s) ->
             Field.nickname f = ToLower (Field.name f)) ->
  forall f, In f (Struct.fields (addAstField s field)) ->
            Field.nickname f = ToLower (Field.name f).
Proof.
  intros H f. unfold addAstField, markSelector.
  destruct (FType field) as [t|x sel|x|]; try apply H.
  - cbn [addFields Struct.fields]. intros Hin.
    apply in_app_or in Hin as [Hin|Hin]; [now apply H|].
    apply in_map_iff in Hin as (n & <- & _).
    destruct (mkField_nickname field t n) as [-> ->]. reflexivity.
  - destruct (String.eqb sel POTYPE_TAG); [apply H|].
    destruct (String.eqb sel POTYPE_EDGE); apply H.
  - destruct x as [t|y sel|y|]; try apply H.
    destruct (String.eqb sel POTYPE_TAG); [apply H|].
    destruct (String.eqb sel POTYPE_EDGE); apply H.
Qed.

Lemma fold_addAstField (flds : list AstField) (s : Struct.t) :
  (forall f, In f (Struct.fields s) ->
             Field.nickname f = ToLower (Field.name f)) ->
  let r := fold_left addAstField flds s in
  Struct.name r = Struct.name s
  /\ Struct.nickname r = Struct.nickname s
  /\ forall f, In f (Struct.fields r) ->
               Field.nickname f = ToLower (Field.name f).
Proof.
  revert s. induction flds as [|x flds IH]; intros s H; cbn [fold_left].
  - now repeat split.
  - destruct (IH (addAstField s x) (addAstField_fields s x H))
      as (Hn & Hk & Hf).
    destruct (addAstField_names s x) as [En Ek].
    repeat split; [now rewrite Hn | now rewrite Hk | exact Hf].
Qed.

(** What the extractor derives: the lower-cased declared name, for the
    entity and for each of its fields; no prefix enters. *)
Lemma mkStruct_names (name : string) (flds : list AstField) :
  Struct.name (mkStruct name flds) = name
  /\ Struct.nickname (mkStruct name flds) = ToLower name
  /\ forall f, In f (Struct.fields (mkStruct name flds)) ->
               Field.nickname f = ToLower (Field.name f).
Proof.
  unfold mkStruct. apply fold_addAstField. intros f [].
Qed.

Lemma addAstField_keeps (s : Struct.t) (field : AstField) (f : Field.t) :
  In f (Struct.fields s) -> In f (Struct.fields (addAstField s field)).
Proof.
  intros H. unfold addAstField, markSelector.
  destruct (FType field) as [t|x sel|x|]; try exact H.
  - cbn [addFields Struct.fields]. apply in_or_app. now left.
  - destruct (String.eqb sel POTYPE_TAG); [exact H|].
    destruct (String.eqb sel POTYPE_EDGE); exact H.
  - destruct x as [t|y sel|y|]; try exact H.
    destruct (String.eqb sel POTYPE_TAG); [exact H|].
    destruct (String.eqb sel POTYPE_EDGE); exact H.
Qed.

Lemma fold_addAstField_keeps (flds : list AstField) (s : Struct.t)
      (f : Field.t) :
  In f (Struct.fields s) ->
  In f (Struct.fields (fold_left addAstField flds s)).
Proof.
  revert s. induction flds as [|x flds IH]; intros s H; cbn [fold_left].
  - exact H.
  - apply IH. now apply addAstField_keeps.
Qed.

(** Every declared name of an identifier-typed entry becomes a [Field]
    that carries the identifier as its type, whatever the identifier is. *)
Lemma mkStruct_keeps_declared_type (name : string) (flds : list AstField)
      (field : AstField) (t n : string) :
  In field flds -> FType field = Ident t -> In n (Names field) ->
  exists f,
    In f (Struct.fields (mkStruct name flds))
    /\ Field.name f = n /\ Field.typeStr f = t.
Proof.
  unfold mkStruct. generalize (Struct.mk name (ToLower name) [] false false).
  induction flds as [|x flds IH]; intros s Hin Ht Hn; [destruct Hin|].
  cbn [fold_left]. destruct Hin as [->|Hin]; [|now apply IH].
  exists (mkField field t n). split.
  - apply fold_addAstField_keeps. unfold addAstField. rewrite Ht.
    cbn [addFields Struct.fields]. apply in_or_app. right. now apply in_map.
  - unfold mkField. destruct (Tag field) as [[v|]|]; split; reflexivity.
Qed.

(** C2. The extractor never reads the configured prefix: every external
    name is the lower-cased declared name.  With the prefix [T], the type
    [TPerson] and its field [TName] get the external names [tperson] and
    [tname], where lower-casing after trimming the prefix gives [person]
    and [name]. *)
Theorem trimprefix_is_not_applied :
  (forall name flds,
      Struct.nickname (mkStruct name flds) = ToLower name
      /\ forall f, In f (Struct.fields (mkStruct name flds)) ->
                   Field.nickname f = ToLower (Field.name f))
  /\ extracted (Samples.flags EmptyString "T")
               (Samples.packageOf [Samples.tpersonDecl])
     = Ok [ Struct.mk "TPerson" "tperson"
              [ Field.mk "TName" "tname" "string" EmptyString false
                         EmptyString ]
              true false ]
  /\ externalName_spec "T" "TPerson" = "person"
  /\ externalName_spec "T" "TName" = "name".
Proof.
  split.
  - intros name flds. destruct (mkStruct_names name flds) as (_ & H1 & H2).
    now split.
  - repeat split; vm_compute; reflexivity.
Qed.

(* ===================================================================== *)
(** ** The field lists *)
(* ===================================================================== *)

Lemma block_app (l1 l2 : list Emit) (buf : string) :
  block (l1 ++ l2) buf = call b <- block l1 buf in block l2 b.
Proof.
  revert buf. induction l1 as [|e l1 IH]; intros buf; cbn [app block bindR].
  - reflexivity.
  - destruct (e buf) as [b|m]; cbn [bindR]; [apply IH | reflexivity].
Qed.

Lemma forEach_map {A B} (g : A -> B) (l : list A) (body : B -> Emit) :
  forEach (map g l) body = forEach l (fun x => body (g x)).
Proof. unfold forEach. now rewrite map_map. Qed.

Lemma forEach_snoc {A} (l : list A) (x : A) (body : A -> Emit) (buf : string) :
  forEach (l ++ [x]) body buf =
  call b <- forEach l body buf in body x b.
Proof.
  unfold forEach. rewrite map_app, block_app. cbn [map block].
  destruct (block (map body l) buf) as [b|m]; cbn [bindR]; [|reflexivity].
  now destruct (body x b).
Qed.

(** [funcAllFields] prints the slice literal of [AllFields_run]. *)
Lemma funcAllFields_prints (s : Struct.t) (buf : string) :
  funcAllFields s buf =
  sliceMethod (Struct.name s) "AllFields" (AllFields_run s) buf.
Proof.
  unfold funcAllFields, sliceMethod, AllFields_run.
  now rewrite forEach_map.
Qed.

(** [funcAllFieldsWithId] prints the same literal with one more element. *)
Lemma funcAllFieldsWithId_prints (s : Struct.t) (buf : string) :
  funcAllFieldsWithId s buf =
  sliceMethod (Struct.name s) "AllFieldsWithId" (AllFields_run s ++ ["id"])
              buf.
Proof.
  unfold funcAllFieldsWithId, sliceMethod, AllFields_run.
  cbn [block Printlnf bindR]. rewrite forEach_snoc, forEach_map.
  change (cat ["func (m *"; Struct.name s; ") "; "AllFieldsWithId";
               "() []string {"])
    with (cat ["func (m *"; Struct.name s; ") AllFieldsWithId() []string {"]).
  match goal with
  | |- context [forEach ?l ?b ?x] => destruct (forEach l b x) as [b1|m]
  end; reflexivity.
Qed.

(** C5, as the code has it.  For every entity, the literal [AllFieldsWithId]
    returns is the literal [AllFields] returns with the one element [id]
    appended at the end; and [id] occurs in what [AllFields] returns exactly
    when the entity declares a field whose external name is [id], which for
    an extracted entity is a field whose lower-cased declared name is
    [id]. *)
Theorem AllFieldsWithId_appends_id (s : Struct.t) :
  (forall buf,
      funcAllFields s buf =
      sliceMethod (Struct.name s) "AllFields" (AllFields_run s) buf)
  /\ (forall buf,
         funcAllFieldsWithId s buf =
         sliceMethod (Struct.name s) "AllFieldsWithId"
                     (AllFields_run s ++ ["id"]) buf)
  /\ (In "id" (AllFields_run s) <->
      exists f, In f (Struct.fields s) /\ Field.nickname f = "id")
  /\ (forall name flds f,
         In f (Struct.fields (mkStruct name flds)) ->
         Field.nickname f = ToLower (Field.name f)).
Proof.
  split; [apply funcAllFields_prints|].
  split; [apply funcAllFieldsWithId_prints|].
  split.
  - unfold AllFields_run. rewrite in_map_iff. split.
    + intros (f & Hn & Hf). now exists f.
    + intros (f & Hf & Hn). now exists f.
  - intros name flds. apply mkStruct_names.
Qed.

(** C5 as stated fails: a vertex type may declare a field [ID], and then
    [id] is an element of what [AllFields] returns. *)
Lemma AllFields_holds_id_counterexample :
  mkStruct "Account"
    [ Samples.tagMarker; Samples.plainField "ID" "int64";
      Samples.plainField "Name" "string" ] = Samples.account
  /\ Struct.isTag Samples.account = true
  /\ AllFields_run Samples.account = ["id"; "name"]
  /\ exists out,
       funcAllFields Samples.account EmptyString = Ok out
       /\ Contains out (cat [tab; tab; dq; "id"; dq; ","]) = true.
Proof.
  split; [reflexivity|]. split; [reflexivity|]. split; [reflexivity|].
  eexists. split; vm_compute; reflexivity.
Defined.

(* ===================================================================== *)
(** ** Entities without a marker *)
(* ===================================================================== *)

Lemma forEach_middle {A} (before after : list A) (x : A) (body : A -> Emit)
      (buf : string) :
  (forall b, body x b = Ok b) ->
  forEach (before ++ x :: after) body buf = forEach (before ++ after) body buf.
Proof.
  intros Hx. unfold forEach. rewrite !map_app, !block_app. cbn [map block].
  destruct (block (map body before) buf) as [b|m]; cbn [bindR]; [|reflexivity].
  now rewrite Hx.
Qed.

(** C1, as the code has it.  For an entity with neither marker the eight
    templates that test the kind print nothing and the package-level
    [Create] does not mention it; [generate] prints for it the twelve
    generic templates, [AllFields] first, as for any other entity. *)
Theorem markerless_entity_gets_generic_templates (s : Struct.t) :
  Struct.isTag s = false ->
  Struct.isEdge s = false ->
  (forall e, In e (kindTemplates s) -> forall buf, e buf = Ok buf)
  /\ (forall buf, emitStruct s buf = block (genericTemplates s) buf)
  /\ (forall before after buf,
         Create (before ++ s :: after) buf = Create (before ++ after) buf)
  /\ (forall buf, exists rest,
         funcAllFields s buf =
         Ok (buf +:+
             Sprintf0 (cat ["func (m *"; Struct.name s;
                            ") AllFields() []string {"] +:+ nl) +:+ rest)).
Proof.
  intros Ht He.
  assert (K1 : funcTagName s = skip) by (unfold funcTagName; now rewrite Ht).
  assert (K2 : funcEdgeName s = skip) by (unfold funcEdgeName; now rewrite He).
  assert (K3 : CreateTag s = skip) by (unfold CreateTag; now rewrite Ht).
  assert (K4 : CreateEdge s = skip) by (unfold CreateEdge; now rewrite He).
  assert (K5 : funcInsertTag s = skip)
    by (unfold funcInsertTag; now rewrite Ht).
  assert (K6 : funcInsertEdge s = skip)
    by (unfold funcInsertEdge; now rewrite He).
  assert (K7 : funcRemoveTag s = skip)
    by (unfold funcRemoveTag; now rewrite Ht).
  assert (K8 : funcRemoveEdge s = skip)
    by (unfold funcRemoveEdge; now rewrite He).
  split.
  { intros e H buf. unfold kindTemplates in H.
    rewrite K1, K2, K3, K4, K5, K6, K7, K8 in H. cbn [In] in H.
    repeat (destruct H as [<-|H]; [reflexivity|]). destruct H. }
  split.
  - intros buf. unfold emitStruct, genericTemplates.
    rewrite K1, K2, K3, K4, K5, K6, K7, K8.
    cbn [block skip bindR]. reflexivity.
  - split.
    + intros before after buf. unfold Create. cbn [block].
      destruct (Printlnf "func Create(session *nebula_go.Session) {" buf)
        as [b|m]; cbn [bindR]; [|reflexivity].
      rewrite forEach_middle; [reflexivity|].
      intros b0. now rewrite Ht, He.
    + intros buf. unfold funcAllFields.
      match goal with
      | |- context [block (?p :: ?l)] =>
          assert (HA : appends (block l)) by solve_appends;
          assert (HS : succeeds (block l)) by solve_succeeds
      end.
      destruct (HS EmptyString) as [t Ht'].
      rewrite block_cons. unfold Printlnf at 1. cbn [bindR].
      rewrite (appends_ok _ _ HA Ht').
      exists t. now rewrite append_assoc.
Qed.

Lemma markerless_entity_gets_generic_templates_witness :
  (forall e, In e (kindTemplates Samples.note) -> forall buf, e buf = Ok buf)
  /\ (forall buf,
         emitStruct Samples.note buf =
         block (genericTemplates Samples.note) buf)
  /\ (forall before after buf,
         Create (before ++ Samples.note :: after) buf =
         Create (before ++ after) buf)
  /\ (forall buf, exists rest,
         funcAllFields Samples.note buf =
         Ok (buf +:+
             Sprintf0 (cat ["func (m *"; Struct.name Samples.note;
                            ") AllFields() []string {"] +:+ nl) +:+ rest)).
Proof.
  apply (markerless_entity_gets_generic_templates Samples.note); reflexivity.
Defined.

(** C1 as stated fails: [Note] embeds no marker, and the output of the run
    holds its [AllFields], [ConditionItem] and [List]. *)
Lemma markerless_entity_counterexample :
  extracted (Samples.flags EmptyString EmptyString)
            (Samples.packageOf [Samples.noteDecl]) = Ok [Samples.note]
  /\ Struct.isTag Samples.note = false
  /\ Struct.isEdge Samples.note = false
  /\ exists log src,
       main Samples.gofmt (Samples.flags EmptyString EmptyString)
            (Samples.packageOf [Samples.noteDecl]) = Wrote log src
       /\ Contains src "func (m *Note) AllFields() []string {" = true
       /\ Contains src "func (m *Note) ConditionItem(fields ...string) []string {"
          = true
       /\ Contains src "func (m *Note) BindRecord(" = true
       /\ Contains src "func (m *Note) List(" = true.
Proof.
  split; [vm_compute; reflexivity|].
  split; [reflexivity|]. split; [reflexivity|].
  eexists _, _. split; [vm_compute; reflexivity|].
  repeat split; vm_compute; reflexivity.
Defined.

(* ===================================================================== *)
(** ** The dispatch chains *)
(* ===================================================================== *)

Lemma mapR_length {A B} (f : A -> result B) (l : list A) (r : list B) :
  mapR f l = Ok r -> length r = length l.
Proof.
  revert r. induction l as [|x l IH]; intros r; cbn [mapR bindR].
  - now intros [= <-].
  - destruct (f x) as [y|m]; cbn [bindR]; [|discriminate].
    destruct (mapR f l) as [ys|m]; cbn [bindR]; [|discriminate].
    intros [= <-]. cbn [length]. now rewrite (IH ys eq_refl).
Qed.

Lemma forEachFrom_arms (body : Field.t -> result string)
      (wrap : string -> string) (fs : list Field.t) :
  forall (arms : Arms) (i : nat) (buf : string),
    mapR (fun f => call e <- body f in Ok (Field.nickname f, e)) fs = Ok arms ->
    forEachFrom i fs
      (fun i f =>
         block
           [ when (negb (Nat.eqb i 0)) (Printf "else ");
             Printlnf (cat ["if f == "; dq; Field.nickname f; dq; " {"]);
             emitR (body f) (fun e => Printlnf (wrap e));
             Printf "}" ]) buf
    = chainFrom i arms wrap buf.
Proof.
  induction fs as [|f fs IH]; intros arms i buf; cbn [mapR bindR].
  - now intros [= <-].
  - destruct (body f) as [e|m] eqn:Eb; cbn [bindR]; [|discriminate].
    destruct (mapR _ fs) as [rest|m] eqn:Er; cbn [bindR]; [|discriminate].
    intros [= <-]. cbn [forEachFrom chainFrom].
    rewrite !block_cons. rewrite Eb.
    match goal with
    | |- bindR ?x _ = bindR ?y _ =>
        replace x with y by (unfold emitR; reflexivity);
        destruct y as [b|m]; cbn [bindR]; [|reflexivity]
    end.
    rewrite !block_cons. rewrite (IH rest (S i) b eq_refl). reflexivity.
Qed.

(** The chain an emitter prints is the printed form of its arms. *)
Lemma rangeFields_arms (s : Struct.t) (body : Field.t -> result string)
      (wrap : string -> string) (arms : Arms) (buf : string) :
  armsOf s body = Ok arms ->
  rangeFields s (fun f => emitR (body f) (fun e => Printlnf (wrap e))) buf
  = rangeArms arms wrap buf.
Proof.
  intros Ha. unfold rangeFields, rangeArms.
  rewrite (mapR_length _ _ _ Ha).
  destruct (Nat.ltb 0 (length (Struct.fields s))); cbn [when]; [|reflexivity].
  rewrite !block_cons.
  destruct (Printlnf (tab +:+ "for _, f := range fields {") buf) as [b|m];
    cbn [bindR]; [|reflexivity].
  rewrite !block_cons. unfold forEachI.
  now rewrite (forEachFrom_arms body wrap _ arms 0 b Ha).
Qed.

(** The strings the arms test are the external names, in declared order. *)
Lemma armsOf_keys (s : Struct.t) (body : Field.t -> result string)
      (arms : Arms) :
  armsOf s body = Ok arms -> map fst arms = AllFields_run s.
Proof.
  unfold armsOf, AllFields_run. generalize (Struct.fields s). intros fs.
  revert arms. induction fs as [|f fs IH]; intros arms; cbn [mapR bindR].
  - now intros [= <-].
  - destruct (body f) as [e|m]; cbn [bindR]; [|discriminate].
    destruct (mapR _ fs) as [rest|m]; cbn [bindR]; [|discriminate].
    intros [= <-]. cbn [map fst]. now rewrite (IH rest eq_refl).
Qed.

Lemma firstArm_None (arms : Arms) (f : string) :
  ~ In f (map fst arms) -> firstArm arms f = None.
Proof.
  induction arms as [|[k e] arms IH]; cbn [firstArm map fst In];
    [reflexivity|].
  intros H. destruct (String.eqb_spec f k) as [->|_].
  - exfalso. apply H. now left.
  - apply IH. intros Hin. apply H. now right.
Qed.

Lemma firstArm_Some (arms : Arms) (f : string) :
  In f (map fst arms) -> exists e, firstArm arms f = Some e.
Proof.
  induction arms as [|[k e] arms IH]; cbn [firstArm map fst In]; [intros []|].
  intros H. destruct (String.eqb_spec f k) as [->|Hne]; [now eexists|].
  apply IH. destruct H as [H|H]; [now symmetry in H|exact H].
Qed.

(** A request for a name no field has runs no arm. *)
Lemma ConditionItem_unknown_name (s : Struct.t) (arms : Arms) (f : string) :
  conditionArms s = Ok arms ->
  ~ In f (AllFields_run s) ->
  ConditionItem_run arms [f] = [].
Proof.
  intros Ha Hf. unfold ConditionItem_run, matched. cbn [flat_map].
  rewrite firstArm_None; [reflexivity|].
  now rewrite (armsOf_keys _ _ _ Ha).
Qed.

(** C3. [Person] embeds the vertex marker and declares [Name] and [Age]:
    its [ConditionItem] has an arm for [name] and one for [age], printed as
    [funcConditionItem] prints them, and none for [id]; requested with the
    one name [id] it returns the empty slice, so no predicate at all and
    no identity predicate. *)
Theorem ConditionItem_id_yields_nothing :
  exists arms,
    conditionArms Samples.person = Ok arms
    /\ map fst arms = ["name"; "age"]
    /\ (forall buf,
           rangeFields Samples.person
             (fun f =>
                emitR (funcEq f (cat ["v."; Struct.nickname Samples.person; "."])
                             "m" "v")
                      (fun e => Printlnf (cat ["result = append(result,"; e; ")"])))
             buf
           = rangeArms arms
               (fun e => cat ["result = append(result,"; e; ")"]) buf)
    /\ ConditionItem_run arms ["id"] = []
    /\ existsb isIdentityPredicate (ConditionItem_run arms ["id"]) = false.
Proof.
  destruct (conditionArms Samples.person) as [arms|m] eqn:E;
    [|vm_compute in E; discriminate E].
  exists arms. split; [reflexivity|].
  assert (K : map fst arms = ["name"; "age"])
    by (rewrite (armsOf_keys _ _ _ E); reflexivity).
  split; [exact K|].
  split; [intros buf; now apply rangeFields_arms|].
  assert (R : ConditionItem_run arms ["id"] = []).
  { apply (ConditionItem_unknown_name Samples.person arms "id" E).
    intros [H|[H|[]]]; discriminate H. }
  split; [exact R | now rewrite R].
Qed.

(** A vertex type that declares [ID] has an arm for [id], and that arm
    compares a property: the identity form is printed for a field named
    [Id] only. *)
Lemma ConditionItem_id_on_declared_ID :
  exists arms,
    conditionArms Samples.account = Ok arms
    /\ ConditionItem_run arms ["id"] =
       [ cat [dq; "v.account.id=="; dq; "+strconv.FormatInt(m.ID, 10)"] ]
    /\ forallb isPropertyPredicate (ConditionItem_run arms ["id"]) = true.
Proof.
  eexists. split; [vm_compute; reflexivity|].
  split; vm_compute; reflexivity.
Qed.

(* ===================================================================== *)
(** ** [NqlValues] *)
(* ===================================================================== *)

Lemma Join_commas (l : list string) :
  l <> [] -> cat (map (fun v => "," +:+ v) l) = "," +:+ Join l ",".
Proof.
  induction l as [|a l IH]; [congruence|]. intros _.
  destruct l as [|y l'].
  - cbn [map cat fold_right Join String.concat]. now rewrite append_nil_r.
  - change (cat (map (fun v => "," +:+ v) (a :: y :: l')))
      with (("," +:+ a) +:+ cat (map (fun v => "," +:+ v) (y :: l'))).
    rewrite IH by discriminate.
    change (Join (a :: y :: l') ",") with (a +:+ "," +:+ Join (y :: l') ",").
    now rewrite append_assoc.
Qed.

Lemma matched_cons (arms : Arms) (f : string) (fs : list string) :
  matched arms (f :: fs) =
  (match firstArm arms f with Some e => [e] | None => [] end
   ++ matched arms fs)%list.
Proof. reflexivity. Qed.

Lemma NqlValues_loop_from (eval : string -> string) (arms : Arms)
      (fields : list string) (acc : string) :
  fold_left (fun values f =>
               match firstArm arms f with
               | Some e => cat [values; ","; eval e]
               | None => values
               end) fields acc
  = acc +:+ cat (map (fun v => "," +:+ v) (map eval (matched arms fields))).
Proof.
  revert acc. induction fields as [|f fs IH]; intros acc; cbn [fold_left].
  - cbn [matched flat_map map cat fold_right]. now rewrite append_nil_r.
  - rewrite IH, matched_cons. destruct (firstArm arms f) as [e|].
    + cbn [app map cat fold_right]. rewrite append_nil_r.
      now rewrite !append_assoc.
    + reflexivity.
Qed.

Lemma NqlValues_run_matched (eval : string -> string) (arms : Arms)
      (fields : list string) :
  matched arms fields <> [] ->
  NqlValues_run eval arms fields =
  Ok (Join (map eval (matched arms fields)) ",").
Proof.
  intros Hne. unfold NqlValues_run, NqlValues_loop.
  rewrite NqlValues_loop_from, append_nil_l, Join_commas.
  - reflexivity.
  - destruct (matched arms fields); [congruence | discriminate].
Qed.

(** When no requested name has an arm, [values] stays empty. *)
Lemma NqlValues_run_nothing_matched (eval : string -> string) (arms : Arms)
      (fields : list string) :
  matched arms fields = [] ->
  NqlValues_run eval arms fields =
  Panic "runtime error: slice bounds out of range [1:0]".
Proof.
  intros H. unfold NqlValues_run, NqlValues_loop.
  now rewrite NqlValues_loop_from, H.
Qed.

Lemma matched_all (arms : Arms) (fields : list string) :
  (forall f, In f fields -> In f (map fst arms)) ->
  Forall2 (fun f e => firstArm arms f = Some e) fields (matched arms fields).
Proof.
  induction fields as [|f fs IH]; intros H; [constructor|].
  rewrite matched_cons.
  destruct (firstArm_Some arms f (H f (or_introl eq_refl))) as [e He].
  rewrite He. cbn [app]. constructor; [exact He|].
  apply IH. intros g Hg. apply H. now right.
Qed.

(** C6, as the code has it.  The chain [NqlValues] runs is the one
    [funcNqlValues] prints, one arm per declared field.  A requested name
    without an arm is passed over without any error: as soon as one
    requested name has an arm, the method returns the values of the arms
    that ran, in the order of the request, joined by commas.  When every
    requested name is the external name of a declared field, these values
    stand one for one, in the same order, against the names [NqlNames]
    joins. *)
Theorem NqlValues_passes_over_unknown_names
        (eval : string -> string) (s : Struct.t) (arms : Arms)
        (fields : list string) :
  valueArms s = Ok arms ->
  matched arms fields <> [] ->
  (forall buf,
      rangeFields s
        (fun f =>
           emitR (funcValue f "m")
                 (fun v => Printlnf (cat ["values = values + "; dq; ","; dq;
                                          " + "; v]))) buf
      = rangeArms arms
          (fun v => cat ["values = values + "; dq; ","; dq; " + "; v]) buf)
  /\ NqlValues_run eval arms fields =
     Ok (Join (map eval (matched arms fields)) ",")
  /\ ((forall f, In f fields -> In f (AllFields_run s)) ->
      Forall2 (fun f e => firstArm arms f = Some e) fields
              (matched arms fields)
      /\ NqlNames_run fields = Join fields ",").
Proof.
  intros Ha Hne.
  split; [intros buf; now apply rangeFields_arms|].
  split; [now apply NqlValues_run_matched|].
  intros Hall. split; [|reflexivity].
  apply matched_all. intros f Hf.
  rewrite (armsOf_keys _ _ _ Ha). now apply Hall.
Qed.

Lemma NqlValues_passes_over_unknown_names_witness :
  (forall buf,
      rangeFields Samples.person
        (fun f =>
           emitR (funcValue f "m")
                 (fun v => Printlnf (cat ["values = values + "; dq; ","; dq;
                                          " + "; v]))) buf
      = rangeArms Samples.personValueArms
          (fun v => cat ["values = values + "; dq; ","; dq; " + "; v]) buf)
  /\ NqlValues_run Samples.alice Samples.personValueArms
                   ["age"; "zzz"; "name"] =
     Ok (Join (map Samples.alice
                   (matched Samples.personValueArms ["age"; "zzz"; "name"]))
              ",")
  /\ ((forall f, In f ["age"; "zzz"; "name"] ->
                 In f (AllFields_run Samples.person)) ->
      Forall2 (fun f e => firstArm Samples.personValueArms f = Some e)
              ["age"; "zzz"; "name"]
              (matched Samples.personValueArms ["age"; "zzz"; "name"])
      /\ NqlNames_run ["age"; "zzz"; "name"] =
         Join ["age"; "zzz"; "name"] ",").
Proof.
  apply (NqlValues_passes_over_unknown_names Samples.alice Samples.person
           Samples.personValueArms ["age"; "zzz"; "name"]).
  - vm_compute. reflexivity.
  - vm_compute. discriminate.
Defined.

(** C6 as stated fails: [zzz] is the external name of no field of
    [Person], and [NqlValues("name", "zzz")] returns the value of [Name]
    without any error. *)
Lemma NqlValues_unknown_name_counterexample :
  valueArms Samples.person = Ok Samples.personValueArms
  /\ ~ In "zzz" (AllFields_run Samples.person)
  /\ NqlValues_run Samples.alice Samples.personValueArms ["name"; "zzz"] =
     Ok (cat [dq; "Alice"; dq]).
Proof.
  split; [vm_compute; reflexivity|]. split.
  - intros [H|[H|[]]]; discriminate H.
  - vm_compute. reflexivity.
Defined.

(* ===================================================================== *)
(** ** Index statements *)
(* ===================================================================== *)

Lemma plainText_percentFree (s : string) :
  plainText s = true -> percentFree s = true.
Proof.
  induction s as [|c s IH]; [reflexivity|]. cbn [plainText percentFree].
  intros H. apply andb_prop in H as [Hc Hs]. rewrite (IH Hs), andb_true_r.
  destruct (Ascii.eqb_spec c percent) as [->|_]; [discriminate Hc|reflexivity].
Qed.

Lemma percentFree_cat (l : list string) :
  percentFree (cat l) = forallb percentFree l.
Proof.
  induction l as [|a l IH]; [reflexivity|].
  cbn [cat fold_right forallb]. rewrite percentFree_append. now rewrite <- IH.
Qed.

Lemma forEach_In_written {A} (l : list A) (body : A -> Emit) (x : A) :
  (forall y, appends (body y)) -> In x l ->
  forall out, forEach l body EmptyString = Ok out ->
  exists t pre post, body x EmptyString = Ok t /\ out = pre +:+ t +:+ post.
Proof.
  intros Hb Hin out Hout.
  apply (block_In_written (map body l) (body x)); [| now apply in_map | exact Hout].
  clear -Hb. induction l; constructor; auto.
Qed.

(** The two prints for an indexed field make up [indexLine]. *)
Lemma indexLine_printed (f : Field.t) :
  cat ["nql = "; dq; "CREATE TAG INDEX IF NOT EXISTS idx_"; Field.nickname f]
  +:+ (cat [" ON "; dq; " + m.TagName() + "; dq; "(";
            Field.otherIndexFields f; ")"; dq] +:+ nl)
  = indexLine f.
Proof.
  unfold indexLine, printPieces, indexPieces, printPiece, Join.
  cbn [map String.concat cat fold_right].
  rewrite !append_nil_r, !append_assoc. reflexivity.
Qed.

Lemma indexed_field_prints (f : Field.t) :
  Field.isIndex f = true ->
  plainText (Field.nickname f) = true ->
  plainText (Field.otherIndexFields f) = true ->
  exists rest,
    when (Field.isIndex f)
      (block
         [ Printf (cat ["nql = "; dq; "CREATE TAG INDEX IF NOT EXISTS idx_";
                        Field.nickname f]);
           Printlnf (cat [" ON "; dq; " + m.TagName() + "; dq; "(";
                          Field.otherIndexFields f; ")"; dq]);
           Printlnf "result,_ = session.Execute(nql)";
           Printlnf "checkResultSet(nql, result)" ]) EmptyString
    = Ok (indexLine f +:+ rest).
Proof.
  intros Hi Hn Ho. rewrite Hi. cbn [when].
  apply plainText_percentFree in Hn, Ho.
  rewrite !block_cons. unfold Printf at 1. cbn [bindR].
  rewrite block_cons. unfold Printlnf at 1. cbn [bindR].
  rewrite !Sprintf0_plain.
  - rewrite append_nil_l.
    match goal with
    | |- context [block ?l ?b] =>
        assert (HA : appends (block l)) by solve_appends;
        assert (HS : succeeds (block l)) by solve_succeeds;
        destruct (HS EmptyString) as [t Ht];
        rewrite (appends_ok _ _ HA Ht b)
    end.
    exists t. now rewrite indexLine_printed.
  - rewrite percentFree_append, percentFree_cat. cbn [forallb].
    now rewrite Ho.
  - rewrite percentFree_cat. cbn [forallb]. now rewrite Hn.
Qed.

(** C4, as the code has it.  For a vertex entity and each of its fields
    marked indexed, [Create] holds the line that assigns to [nql] the
    statement CREATE TAG INDEX IF NOT EXISTS idx_<field> ON <label>(<value>),
    where <value> is the value of the index annotation as it stands: nothing
    between the parentheses for an empty value, x,y for the value x,y.  The
    names are taken to be plain text, as identifiers are. *)
Theorem index_statement_holds_annotation_value (s : Struct.t) (f : Field.t) :
  Struct.isTag s = true ->
  In f (Struct.fields s) ->
  Field.isIndex f = true ->
  plainText (Field.nickname f) = true ->
  plainText (Field.otherIndexFields f) = true ->
  (exists pre post,
      forall buf,
        CreateTag s buf = Ok (buf +:+ pre +:+ indexLine f +:+ post))
  /\ evalPieces (Struct.nickname s) (indexPieces f) =
     cat ["CREATE TAG INDEX IF NOT EXISTS idx_"; Field.nickname f; " ON ";
          Struct.nickname s; "("; Field.otherIndexFields f; ")"].
Proof.
  intros Ht Hin Hi Hn Ho. split.
  - unfold CreateTag, columnLines. rewrite Ht. cbn [negb].
    match goal with
    | |- context [block ?l] =>
        assert (HA : Forall appends l) by solve_appends;
        assert (HS : succeeds (block l)) by solve_succeeds;
        assert (HI : In (forEach (Struct.fields s) (fun f =>
                       when (Field.isIndex f)
                         (block
                            [ Printf (cat ["nql = "; dq;
                                  "CREATE TAG INDEX IF NOT EXISTS idx_";
                                  Field.nickname f]);
                              Printlnf (cat [" ON "; dq; " + m.TagName() + ";
                                  dq; "("; Field.otherIndexFields f; ")"; dq]);
                              Printlnf "result,_ = session.Execute(nql)";
                              Printlnf "checkResultSet(nql, result)" ]))) l)
          by (do 6 right; left; reflexivity);
        destruct (HS EmptyString) as [out Hout];
        destruct (block_In_written l _ HA HI out Hout)
          as (u & pre & post & Hu & ->);
        pose proof (appends_ok _ _ (appends_block l HA) Hout) as Hall
    end.
    match type of Hu with
    | forEach ?l ?body _ = _ =>
        assert (HB : forall y, appends (body y))
          by (intros y; solve_appends);
        destruct (forEach_In_written l body f HB Hin u Hu)
          as (t & pre' & post' & Hf & ->)
    end.
    destruct (indexed_field_prints f Hi Hn Ho) as [rest Hr].
    cbv beta in Hf. rewrite Hr in Hf. injection Hf as <-.
    exists (pre +:+ pre'), (rest +:+ post' +:+ post). intros buf.
    rewrite Hall, !append_assoc. reflexivity.
  - unfold evalPieces, indexPieces. cbn [map cat fold_right].
    rewrite !append_nil_r, !append_assoc. reflexivity.
Qed.

Lemma index_statement_holds_annotation_value_witness :
  (exists pre post,
      forall buf,
        CreateTag Samples.place buf =
        Ok (buf +:+ pre +:+
            indexLine (Field.mk "City" "city" "string" EmptyString true "x,y")
            +:+ post))
  /\ evalPieces (Struct.nickname Samples.place)
       (indexPieces (Field.mk "City" "city" "string" EmptyString true "x,y")) =
     cat ["CREATE TAG INDEX IF NOT EXISTS idx_"; "city"; " ON ";
          Struct.nickname Samples.place; "("; "x,y"; ")"].
Proof.
  apply (index_statement_holds_annotation_value Samples.place
           (Field.mk "City" "city" "string" EmptyString true "x,y")).
  - reflexivity.
  - left. reflexivity.
  - reflexivity.
  - reflexivity.
  - reflexivity.
Defined.

(** C4 as stated fails for an empty annotation value: the field [Age] of
    [Person] is marked indexed with no target, and the statement [Create]
    runs ends in [ON person()], not in [ON person(age)]. *)
Lemma index_without_target_counterexample :
  In (Field.mk "Age" "age" "int32" EmptyString true EmptyString)
     (Struct.fields Samples.person)
  /\ Struct.isTag Samples.person = true
  /\ evalPieces (Struct.nickname Samples.person)
       (indexPieces (Field.mk "Age" "age" "int32" EmptyString true EmptyString))
     = "CREATE TAG INDEX IF NOT EXISTS idx_age ON person()"
  /\ exists out,
       CreateTag Samples.person EmptyString = Ok out
       /\ Contains out
            (cat ["nql = "; dq; "CREATE TAG INDEX IF NOT EXISTS idx_age ON ";
                  dq; " + m.TagName() + "; dq; "()"; dq; nl]) = true
       /\ Contains out "(age)" = false.
Proof.
  split; [right; left; reflexivity|].
  split; [reflexivity|]. split; [vm_compute; reflexivity|].
  eexists. split; [vm_compute; reflexivity|].
  split; vm_compute; reflexivity.
Defined.

(* ===================================================================== *)
(** ** The walk over the declarations *)
(* ===================================================================== *)

Lemma Node_nested_ind (P : Node -> Prop) :
  (forall name ty, P (TypeSpec name ty)) ->
  (forall recv body, Forall P body -> P (FuncDecl recv body)) ->
  (forall ch, Forall P ch -> P (OtherNode ch)) ->
  forall node, P node.
Proof.
  intros HT HF HO. fix IH 1. intros [name ty|recv body|ch].
  - apply HT.
  - apply HF. induction body as [|c body IHb]; constructor;
      [apply IH | exact IHb].
  - apply HO. induction ch as [|c ch IHc]; constructor;
      [apply IH | exact IHc].
Qed.

Lemma Inspect_OtherNode (ch : list Node) (f : File.t) :
  Inspect (OtherNode ch) f = InspectList ch f.
Proof.
  cbn [Inspect genStruct]. revert f.
  induction ch as [|c ch IH]; intros f; [reflexivity|].
  cbn [InspectList bindR]. destruct (Inspect c f) as [f'|m];
    [apply IH | reflexivity].
Qed.

Lemma Inspect_FuncDecl (recv : list AstField) (body : list Node) (f : File.t) :
  Inspect (FuncDecl (Some recv) body) f = InspectList body f.
Proof.
  cbn [Inspect genStruct]. revert f.
  induction body as [|c body IH]; intros f; [reflexivity|].
  cbn [InspectList bindR]. destruct (Inspect c f) as [f'|m];
    [apply IH | reflexivity].
Qed.

Lemma Inspect_TypeSpec (name : string) (ty : TypeExpr) (f : File.t) :
  exists b f',
    genStruct (TypeSpec name ty) f = Ok (b, f')
    /\ Inspect (TypeSpec name ty) f = Ok f'.
Proof.
  cbn [Inspect]. cbn [genStruct].
  destruct (negb (allowTypeName f name)); [now eexists _, _|].
  destruct (Nat.eqb _ 1); now eexists _, _.
Qed.

Lemma InspectList_returns (l : list Node) :
  Forall (fun node => forall f,
            returns (Inspect node f) = negb (hasBareFunc node)) l ->
  forall f, returns (InspectList l f) = negb (existsb hasBareFunc l).
Proof.
  induction 1 as [|c l Hc _ IH]; intros f; [reflexivity|].
  cbn [InspectList existsb]. specialize (Hc f).
  destruct (Inspect c f) as [f'|m]; cbn [bindR returns] in *.
  - destruct (hasBareFunc c); [discriminate Hc|]. apply IH.
  - destruct (hasBareFunc c); [reflexivity | discriminate Hc].
Qed.

(** X1. The walk of a tree returns exactly when the tree holds no function
    declaration without receiver, whatever the allow-list and whatever the
    walk has gathered so far: one plain function anywhere in a scanned file
    stops the run. *)
Theorem walk_returns_iff_no_bare_function (node : Node) (f : File.t) :
  returns (Inspect node f) = negb (hasBareFunc node).
Proof.
  revert f. induction node as [name ty|recv body IH|ch IH]
    using Node_nested_ind; intros f.
  - destruct (Inspect_TypeSpec name ty f) as (b & f' & _ & ->). reflexivity.
  - destruct recv as [recv|]; [|reflexivity].
    rewrite Inspect_FuncDecl. cbn [hasBareFunc].
    now apply InspectList_returns.
  - rewrite Inspect_OtherNode. cbn [hasBareFunc].
    now apply InspectList_returns.
Qed.

Lemma genStruct_unrestricted (name : string) (ty : TypeExpr) (f : File.t) :
  File.allowTypeNames f = None ->
  genStruct (TypeSpec name ty) f =
  Ok (true, withStructs f (File.structs f ++ structsOf (TypeSpec name ty))).
Proof.
  destruct f as [d a al ss tp lc]. cbn [File.allowTypeNames]. intros ->.
  cbn [genStruct allowTypeName File.allowTypeNames negb].
  destruct ty as [flds|];
    cbn [withStructs withAllow mapLen mapDelete Nat.eqb File.allowTypeNames
         File.structs File.dir File.file File.trimPrefix File.lineComment
         structsOf].
  - reflexivity.
  - now rewrite app_nil_r.
Qed.

Lemma withStructs_twice (f : File.t) (a b : list Struct.t) :
  withStructs (withStructs f a) b = withStructs f b.
Proof. reflexivity. Qed.

Lemma InspectList_unrestricted (l : list Node) :
  Forall (fun node => forall f,
            File.allowTypeNames f = None ->
            hasBareFunc node = false ->
            Inspect node f =
            Ok (withStructs f (File.structs f ++ structsOf node))) l ->
  forall f,
    File.allowTypeNames f = None ->
    existsb hasBareFunc l = false ->
    InspectList l f =
    Ok (withStructs f (File.structs f ++ flat_map structsOf l)).
Proof.
  induction 1 as [|c l Hc _ IH]; intros f Hf Hb.
  - cbn [InspectList flat_map]. rewrite app_nil_r. now destruct f.
  - cbn [existsb] in Hb. apply orb_false_elim in Hb as [Hb1 Hb2].
    cbn [InspectList flat_map]. rewrite (Hc f Hf Hb1). cbn [bindR].
    rewrite IH; [|now destruct f|exact Hb2].
    destruct f as [d a al ss tp lc].
    cbn [withStructs File.structs File.dir File.file File.allowTypeNames
         File.trimPrefix File.lineComment].
    now rewrite app_assoc.
Qed.

(** X2. Without an allow-list, a tree free of receiver-less function
    declarations leaves the walk with exactly its struct types appended to
    [f.structs], in the order of the declarations, and with nothing else of
    the [File] changed. *)
Theorem unrestricted_walk_gathers_every_struct (node : Node) (f : File.t) :
  File.allowTypeNames f = None ->
  hasBareFunc node = false ->
  Inspect node f = Ok (withStructs f (File.structs f ++ structsOf node)).
Proof.
  revert f. induction node as [name ty|recv body IH|ch IH]
    using Node_nested_ind; intros f Hf Hb.
  - destruct (Inspect_TypeSpec name ty f) as (b & f' & Hg & ->).
    rewrite (genStruct_unrestricted name ty f Hf) in Hg. now injection Hg as _ <-.
  - destruct recv as [recv|]; [|discriminate Hb].
    rewrite Inspect_FuncDecl. now apply InspectList_unrestricted.
  - rewrite Inspect_OtherNode. now apply InspectList_unrestricted.
Qed.

Lemma unrestricted_walk_gathers_every_struct_witness :
  Inspect (OtherNode [Samples.noteDecl;
                      FuncDecl (Some []) [Samples.personDecl];
                      Samples.followDecl])
          (newFile EmptyString false (Samples.sourceFile []))
  = Ok (withStructs (newFile EmptyString false (Samples.sourceFile []))
          (File.structs (newFile EmptyString false (Samples.sourceFile []))
           ++ structsOf (OtherNode [Samples.noteDecl;
                                    FuncDecl (Some []) [Samples.personDecl];
                                    Samples.followDecl]))).
Proof.
  apply (unrestricted_walk_gathers_every_struct
           (OtherNode [Samples.noteDecl;
                       FuncDecl (Some []) [Samples.personDecl];
                       Samples.followDecl])
           (newFile EmptyString false (Samples.sourceFile []))).
  - reflexivity.
  - reflexivity.
Defined.

(* ===================================================================== *)
(** ** What [genStruct] makes of a field list *)
(* ===================================================================== *)

Lemma addAstField_reads (field : AstField) (n k : string)
      (fs : list Field.t) (t e : bool) :
  addAstField (Struct.mk n k fs t e) field =
  Struct.mk n k (fs ++ declaredFields field)
            (t || embeds POTYPE_TAG field)
            (e || embeds POTYPE_EDGE field).
Proof.
  unfold addAstField, declaredFields, embeds, markSelector, setTag, setEdge,
    addFields.
  cbn [Struct.name Struct.nickname Struct.fields Struct.isTag Struct.isEdge].
  destruct (FType field) as [ty|x sel|x|].
  - now rewrite !orb_false_r.
  - destruct (String.eqb_spec sel POTYPE_TAG) as [->|_].
    + cbn. now rewrite app_nil_r, orb_true_r, orb_false_r.
    + destruct (String.eqb sel POTYPE_EDGE);
        now rewrite app_nil_r, ?orb_true_r, ?orb_false_r.
  - destruct x as [ty|y sel|y|];
      try now rewrite app_nil_r, !orb_false_r.
    destruct (String.eqb_spec sel POTYPE_TAG) as [->|_].
    + cbn. now rewrite app_nil_r, orb_true_r, orb_false_r.
    + destruct (String.eqb sel POTYPE_EDGE);
        now rewrite app_nil_r, ?orb_true_r, ?orb_false_r.
  - now rewrite app_nil_r, !orb_false_r.
Qed.

Lemma fold_addAstField_reads (flds : list AstField) (n k : string)
      (fs : list Field.t) (t e : bool) :
  fold_left addAstField flds (Struct.mk n k fs t e) =
  Struct.mk n k (fs ++ flat_map declaredFields flds)
            (t || existsb (embeds POTYPE_TAG) flds)
            (e || existsb (embeds POTYPE_EDGE) flds).
Proof.
  revert fs t e. induction flds as [|x flds IH]; intros fs t e.
  - cbn [fold_left flat_map existsb]. now rewrite app_nil_r, !orb_false_r.
  - cbn [fold_left flat_map existsb]. rewrite addAstField_reads, IH.
    now rewrite <- app_assoc, !orb_assoc.
Qed.

(** X3. The entity [genStruct] builds from a struct type: its fields are
    the named entries whose type is a plain identifier, one per declared
    name, in declaration order; an entry that embeds [Tag] or [Edge], by
    value or by pointer, adds no field and raises the flag of its marker;
    the two flags are independent, so a type that embeds both markers is
    both a vertex and an edge. *)
Theorem mkStruct_reads_the_field_list (name : string) (flds : list AstField) :
  mkStruct name flds =
  Struct.mk name (ToLower name) (flat_map declaredFields flds)
            (existsb (embeds POTYPE_TAG) flds)
            (existsb (embeds POTYPE_EDGE) flds).
Proof.
  unfold mkStruct. now rewrite fold_addAstField_reads.
Qed.

(* ===================================================================== *)
(** ** The model of a whole package *)
(* ===================================================================== *)

Lemma addFiles_filter (tp : string) (lc : bool) (syntax : list AstFile)
      (acc : list File.t) :
  addFiles tp lc syntax acc =
  (acc ++ map (newFile tp lc)
              (List.filter (fun file => negb (isGenerated file)) syntax))%list.
Proof.
  revert acc. induction syntax as [|x syntax IH]; intros acc;
    cbn [addFiles List.filter].
  - cbn [map]. now rewrite app_nil_r.
  - destruct (isGenerated x); cbn [negb]; rewrite IH; [reflexivity|].
    cbn [map]. now rewrite <- app_assoc.
Qed.

Lemma scanFiles_unrestricted (d tp : string) (lc : bool)
      (fs : list AstFile) (acc : option (list Struct.t)) :
  (forall file, In file fs -> existsb hasBareFunc (Decls file) = false) ->
  exists r,
    scanFiles d [] (map (newFile tp lc) fs) acc = Ok r
    /\ sliceOf r =
       (sliceOf acc ++ flat_map (fun file => flat_map structsOf (Decls file))
                                fs)%list.
Proof.
  revert acc. induction fs as [|x fs IH]; intros acc Hb.
  - exists acc. cbn [map scanFiles flat_map]. now rewrite app_nil_r.
  - cbn [map scanFiles]. unfold scanFile, inspectFile.
    cbn [length Nat.ltb Nat.leb withDir newFile File.file File.dir
         File.allowTypeNames File.structs File.trimPrefix File.lineComment].
    rewrite InspectList_unrestricted;
      [| apply List.Forall_forall; intros node _ f;
         apply unrestricted_walk_gathers_every_struct
       | reflexivity
       | apply Hb; now left ].
    cbn [bindR withStructs File.structs app].
    destruct (IH (appendStructs acc (flat_map structsOf (Decls x))))
      as (r & Hr & Hs); [intros file Hf; apply Hb; now right|].
    exists r. split; [exact Hr|]. rewrite Hs. cbn [flat_map].
    destruct acc as [ss|]; cbn [appendStructs sliceOf app];
      [now rewrite <- app_assoc | reflexivity].
Qed.

(** X4. Run without [-type], on a package whose scanned files hold no
    receiver-less function declaration, the generator's model is the list of
    all struct types of the files that are not generated ones, file after
    file in the order of the package and declaration after declaration
    within a file. *)
Theorem model_is_every_struct_in_declaration_order
        (fl : Flags) (pkg : LoadedPackage) :
  typeNames fl = EmptyString ->
  (forall file, In file (Syntax pkg) -> isGenerated file = false ->
                existsb hasBareFunc (Decls file) = false) ->
  extracted fl pkg =
  Ok (flat_map (fun file => flat_map structsOf (Decls file))
               (List.filter (fun file => negb (isGenerated file)) (Syntax pkg))).
Proof.
  intros Ht Hb. unfold extracted. rewrite Ht. cbn [String.length Nat.ltb Nat.leb].
  rewrite addFiles_filter. cbn [app].
  destruct (scanFiles_unrestricted (dir fl) (trimprefix fl) (linecomment fl)
              (List.filter (fun file => negb (isGenerated file)) (Syntax pkg)) None)
    as (r & -> & Hs).
  - intros file Hf. apply List.filter_In in Hf as [Hin Hg]. apply Hb; [exact Hin|].
    now destruct (isGenerated file).
  - cbn [bindR]. now rewrite Hs.
Qed.

Lemma model_is_every_struct_in_declaration_order_witness :
  extracted (Samples.flags EmptyString EmptyString)
    (mkLoaded "model"
       [ Samples.sourceFile [Samples.userDecl; Samples.noteDecl];
         Samples.previousOutput;
         Samples.sourceFile [Samples.followDecl] ])
  = Ok (flat_map (fun file => flat_map structsOf (Decls file))
          (List.filter (fun file => negb (isGenerated file))
             (Syntax
                (mkLoaded "model"
                   [ Samples.sourceFile [Samples.userDecl; Samples.noteDecl];
                     Samples.previousOutput;
                     Samples.sourceFile [Samples.followDecl] ])))).
Proof.
  apply (model_is_every_struct_in_declaration_order
           (Samples.flags EmptyString EmptyString)
           (mkLoaded "model"
              [ Samples.sourceFile [Samples.userDecl; Samples.noteDecl];
                Samples.previousOutput;
                Samples.sourceFile [Samples.followDecl] ])).
  - reflexivity.
  - intros file [<-|[<-|[<-|[]]]] Hg; first [reflexivity | discriminate Hg].
Defined.

(* ===================================================================== *)
(** ** The allow-list *)
(* ===================================================================== *)

Lemma allowMap_keys (names : list string) (m : gmap string Z) (k : string) :
  is_Some (fold_left (fun m n => <[n := 1%Z]> m) names m !! k) ->
  is_Some (m !! k) \/ In k names.
Proof.
  revert m. induction names as [|n names IH]; intros m; cbn [fold_left].
  - now left.
  - intros H. destruct (IH _ H) as [[v Hv]|Hin]; [|right; now right].
    apply lookup_insert_Some in Hv as [[-> _]|[_ Hv]].
    + right. now left.
    + left. now exists v.
Qed.

Lemma genStruct_restricted (L : list string) (node : Node) (f : File.t)
      (b : bool) (f' : File.t) :
  restricted L f -> genStruct node f = Ok (b, f') -> restricted L f'.
Proof.
  intros (Hs & m & Hm & Hk). destruct node as [name ty|[recv|] body|ch];
    cbn [genStruct]; try (intros [= _ <-]; split; [exact Hs | now exists m]);
    [|discriminate].
  unfold allowTypeName. rewrite Hm.
  destruct (bool_decide (is_Some (m !! name))) eqn:Ha; cbn [negb];
    [|intros [= _ <-]; split; [exact Hs | now exists m]].
  apply bool_decide_eq_true in Ha.
  assert (Hs' : forall s,
             In s (File.structs
                     match ty with
                     | StructType flds =>
                         withStructs f (File.structs f ++ [mkStruct name flds])
                     | OtherType => f
                     end) -> In (Struct.name s) L).
  { destruct ty as [flds|]; [|exact Hs].
    cbn [withStructs File.structs]. intros s Hin.
    apply in_app_or in Hin as [Hin|[<-|[]]]; [now apply Hs|].
    destruct (mkStruct_names name flds) as (-> & _). now apply Hk. }
  assert (Hm' : File.allowTypeNames
                  match ty with
                  | StructType flds =>
                      withStructs f (File.structs f ++ [mkStruct name flds])
                  | OtherType => f
                  end = Some m) by now destruct ty.
  rewrite Hm'. cbn [mapLen mapDelete].
  destruct (Nat.eqb (size m) 1); intros [= _ <-].
  - split; [exact Hs' | now exists m].
  - split; [now destruct ty|]. exists (delete name m). split; [reflexivity|].
    intros k [v Hv]. apply lookup_delete_Some in Hv as [_ Hv].
    apply Hk. now exists v.
Qed.

Lemma InspectList_restricted (L : list string) (l : list Node) :
  Forall (fun node => forall f f',
            restricted L f -> Inspect node f = Ok f' -> restricted L f') l ->
  forall f f', restricted L f -> InspectList l f = Ok f' -> restricted L f'.
Proof.
  induction 1 as [|c l Hc _ IH]; intros f f' Hf; cbn [InspectList].
  - now intros [= <-].
  - destruct (Inspect c f) as [f1|m] eqn:E; cbn [bindR]; [|discriminate].
    apply IH. now apply (Hc f f1).
Qed.

Lemma Inspect_restricted (L : list string) (node : Node) (f f' : File.t) :
  restricted L f -> Inspect node f = Ok f' -> restricted L f'.
Proof.
  revert f f'. induction node as [name ty|recv body IH|ch IH]
    using Node_nested_ind; intros f f' Hf.
  - destruct (Inspect_TypeSpec name ty f) as (b & f1 & Hg & ->).
    intros [= <-]. exact (genStruct_restricted L (TypeSpec name ty) f b f1 Hf Hg).
  - destruct recv as [recv|]; [|discriminate].
    rewrite Inspect_FuncDecl. now apply InspectList_restricted.
  - rewrite Inspect_OtherNode. now apply InspectList_restricted.
Qed.

Lemma scanFiles_restricted (d : string) (L : list string) (tp : string)
      (lc : bool) (fs : list AstFile) :
  L <> [] ->
  forall acc r,
    (forall s, In s (sliceOf acc) -> In (Struct.name s) L) ->
    scanFiles d L (map (newFile tp lc) fs) acc = Ok r ->
    forall s, In s (sliceOf r) -> In (Struct.name s) L.
Proof.
  intros HL. induction fs as [|x fs IH]; intros acc r Hacc;
    cbn [map scanFiles].
  - now intros [= <-].
  - unfold scanFile at 1.
    destruct L as [|n L']; [congruence|]. cbn [length Nat.ltb Nat.leb].
    destruct (inspectFile _) as [f'|m] eqn:E; cbn [bindR]; [|discriminate].
    apply IH. intros s Hs.
    assert (R : restricted (n :: L') f').
    { unfold inspectFile in E.
      eapply (InspectList_restricted (n :: L')); [| |exact E].
      - apply List.Forall_forall. intros node _ f1 f2.
        apply Inspect_restricted.
      - split; [intros s0 []|].
        eexists. split; [reflexivity|]. intros k Hk. unfold allowMap in Hk.
        apply allowMap_keys in Hk as [[v Hv]|Hk]; [|exact Hk].
        now rewrite lookup_empty in Hv. }
    destruct R as [Rs _].
    destruct acc as [ss|]; cbn [appendStructs sliceOf] in Hs.
    + apply in_app_or in Hs as [Hs|Hs]; [now apply Hacc | now apply Rs].
    + now apply Rs.
Qed.

Lemma Split_nonempty (s : string) : Split s <> [].
Proof.
  unfold Split. generalize EmptyString.
  induction s as [|c s IH]; intros cur; cbn [splitComma]; [discriminate|].
  destruct (Ascii.eqb c (ascii_of_nat 44)); [discriminate | apply IH].
Qed.

(** X5. Run with [-type], the generator's model holds structs of the
    requested names only: whatever the package declares, every extracted
    entity bears one of the names given on the command line. *)
Theorem model_holds_requested_names_only
        (fl : Flags) (pkg : LoadedPackage) (ss : list Struct.t) :
  typeNames fl <> EmptyString ->
  extracted fl pkg = Ok ss ->
  forall s, In s ss -> In (Struct.name s) (Split (typeNames fl)).
Proof.
  intros Ht. unfold extracted.
  destruct (typeNames fl) as [|c tn] eqn:E; [congruence|].
  cbn [String.length Nat.ltb Nat.leb]. rewrite addFiles_filter. cbn [app].
  destruct (scanFiles _ _ _ None) as [r|m] eqn:Es; cbn [bindR]; [|discriminate].
  intros [= <-].
  eapply scanFiles_restricted; [apply Split_nonempty | | exact Es].
  intros s [].
Qed.

Lemma model_holds_requested_names_only_witness :
  In (Struct.name Samples.note)
     (Split (typeNames (Samples.flags "User,Note,Missing" EmptyString)))
  /\ In (Struct.name Samples.user)
        (Split (typeNames (Samples.flags "User,Note,Missing" EmptyString))).
Proof.
  assert (H : extracted (Samples.flags "User,Note,Missing" EmptyString)
                (Samples.packageOf
                   [Samples.noteDecl; Samples.personDecl; Samples.userDecl;
                    Samples.followDecl])
              = Ok [Samples.note; Samples.user])
    by (vm_compute; reflexivity).
  assert (N : typeNames (Samples.flags "User,Note,Missing" EmptyString)
              <> EmptyString) by discriminate.
  split.
  - exact (model_holds_requested_names_only
             (Samples.flags "User,Note,Missing" EmptyString)
             (Samples.packageOf
                [Samples.noteDecl; Samples.personDecl; Samples.userDecl;
                 Samples.followDecl])
             [Samples.note; Samples.user] N H Samples.note
             (or_introl eq_refl)).
  - exact (model_holds_requested_names_only
             (Samples.flags "User,Note,Missing" EmptyString)
             (Samples.packageOf
                [Samples.noteDecl; Samples.personDecl; Samples.userDecl;
                 Samples.followDecl])
             [Samples.note; Samples.user] N H Samples.user
             (or_intror (or_introl eq_refl))).
Defined.

(* ===================================================================== *)
(** ** The domain of the type codec *)
(* ===================================================================== *)

Lemma Field_funcBindResult_unsupported (f : Field.t) (sn prefix : string) :
  supported (Field.typeStr f) = false ->
  Field_funcBindResult f sn prefix = Panic (Field.typeStr f +:+ "unsupport").
Proof.
  unfold supported, Field_funcBindResult. cbn [existsb]. intros H.
  repeat (apply orb_false_elim in H as [-> H]). reflexivity.
Qed.

(** X6. The three codec methods have one domain: the value expression, the
    predicate and the result binding of a field are produced exactly when
    the field's type is one of the eight names, and each of them panics on
    any other type, whatever the receiver name, prefix or query variable. *)
Theorem codec_methods_share_their_domain
        (f : Field.t) (structName prefix nqlVarName : string) :
  returns (funcValue f structName) = supported (Field.typeStr f)
  /\ returns (funcEq f prefix structName nqlVarName) =
     supported (Field.typeStr f)
  /\ returns (Field_funcBindResult f structName prefix) =
     supported (Field.typeStr f).
Proof.
  destruct (supported (Field.typeStr f)) eqn:E.
  - destruct (funcValue_supported f structName E) as [v ->].
    destruct (funcEq_supported f prefix structName nqlVarName E) as [e ->].
    destruct (Field_funcBindResult_supported f structName prefix E) as [t ->].
    now repeat split.
  - unfold funcEq.
    rewrite (funcValue_unsupported f structName E),
      (Field_funcBindResult_unsupported f structName prefix E).
    cbn [bindR]. now destruct (String.eqb _ _).
Qed.

(* ===================================================================== *)
(** ** Which run panics, and with what message *)
(* ===================================================================== *)

Lemma block_succeeds_then (pre : list Emit) (rest : list Emit) (buf : string) :
  Forall succeeds pre ->
  exists b, block (pre ++ rest) buf = block rest b.
Proof.
  intros H. revert buf. induction H as [|e pre He _ IH]; intros buf.
  - now exists buf.
  - cbn [app]. rewrite block_cons. destruct (He buf) as [b ->]. cbn [bindR].
    apply IH.
Qed.

Lemma forEachFrom_find {A} (p : A -> bool) (msg : A -> string)
      (body : nat -> A -> Emit) (l : list A) :
  (forall i x, p x = false -> succeeds (body i x)) ->
  (forall i x buf, p x = true -> body i x buf = Panic (msg x)) ->
  forall i buf,
    match find p l with
    | Some x => forEachFrom i l body buf = Panic (msg x)
    | None => exists b, forEachFrom i l body buf = Ok b
    end.
Proof.
  intros Hok Hbad. induction l as [|x l IH]; intros i buf;
    cbn [find forEachFrom].
  - now exists buf.
  - rewrite block_cons. destruct (p x) eqn:E.
    + now rewrite (Hbad i x buf E).
    + destruct (Hok i x E buf) as [b ->]. cbn [bindR]. rewrite block_cons.
      specialize (IH (S i) b). destruct (find p l) as [y|].
      * now rewrite IH.
      * destruct IH as [b' ->]. cbn [bindR block]. now exists b'.
Qed.

Lemma chainArm_outcome (arm : Field.t -> Emit) (p : Field.t -> bool)
      (msg : Field.t -> string) :
  (forall f, p f = false -> succeeds (arm f)) ->
  (forall f buf, p f = true -> arm f buf = Panic (msg f)) ->
  (forall (i : nat) f,
      p f = false ->
      succeeds
        (block
           [ when (negb (Nat.eqb i 0)) (Printf "else ");
             Printlnf (cat ["if f == "; dq; Field.nickname f; dq; " {"]);
             arm f;
             Printf "}" ]))
  /\ (forall (i : nat) f buf,
         p f = true ->
         block
           [ when (negb (Nat.eqb i 0)) (Printf "else ");
             Printlnf (cat ["if f == "; dq; Field.nickname f; dq; " {"]);
             arm f;
             Printf "}" ] buf = Panic (msg f)).
Proof.
  intros Hok Hbad. split.
  - intros i f Hf. apply succeeds_block.
    constructor; [apply succeeds_when, succeeds_Printf|].
    constructor; [apply succeeds_Printlnf|].
    constructor; [now apply Hok|].
    constructor; [apply succeeds_Printf | constructor].
  - intros i f buf Hf. rewrite block_cons.
    destruct (succeeds_when (negb (Nat.eqb i 0)) _
                (succeeds_Printf "else ") buf) as [b1 ->].
    cbn [bindR]. rewrite block_cons. unfold Printlnf at 1. cbn [bindR].
    rewrite block_cons. now rewrite (Hbad f _ Hf).
Qed.

(** A dispatching template panics on the first declared field whose arm
    cannot be built, with that arm's message. *)
Lemma rangeFields_outcome (s : Struct.t) (arm : Field.t -> Emit)
      (p : Field.t -> bool) (msg : Field.t -> string) :
  (forall f, p f = false -> succeeds (arm f)) ->
  (forall f buf, p f = true -> arm f buf = Panic (msg f)) ->
  forall buf,
    match find p (Struct.fields s) with
    | Some f => rangeFields s arm buf = Panic (msg f)
    | None => exists b, rangeFields s arm buf = Ok b
    end.
Proof.
  intros Hok Hbad buf. unfold rangeFields.
  destruct (Struct.fields s) as [|f0 fs].
  - cbn [find]. now exists buf.
  - destruct (chainArm_outcome arm p msg Hok Hbad) as [H1 H2].
    pose proof (fun b => forEachFrom_find p msg _ (f0 :: fs) H1 H2 0 b) as H.
    cbn [length Nat.ltb Nat.leb when]. unfold forEachI.
    destruct (find p (f0 :: fs)) as [f|].
    + rewrite block_cons. unfold Printlnf at 1. cbn [bindR].
      rewrite block_cons. now rewrite H.
    + rewrite block_cons. unfold Printlnf at 1. cbn [bindR].
      rewrite block_cons.
      match goal with
      | |- context [forEachFrom 0 _ _ ?b] => destruct (H b) as [b1 ->]
      end.
      cbn [bindR]. now eexists.
Qed.

Lemma funcNqlNameValues_outcome (s : Struct.t) (buf : string) :
  match find (fun f => negb (supported (Field.typeStr f))) (Struct.fields s)
  with
  | Some f => funcNqlNameValues s buf = Panic (Field.typeStr f +:+ "unsupport")
  | None => exists b, funcNqlNameValues s buf = Ok b
  end.
Proof.
  unfold funcNqlNameValues.
  match goal with
  | |- context [rangeFields s ?arm] =>
      pose proof (rangeFields_outcome s arm
                    (fun f => negb (supported (Field.typeStr f)))
                    (fun f => Field.typeStr f +:+ "unsupport")) as H
  end.
  cbv beta in H.
  match type of H with
  | ?A -> ?B -> _ =>
      assert (HA : A);
      [ intros f Hf; apply negb_false_iff in Hf;
        apply succeeds_emitR; [now apply funcValue_supported|];
        intros v; apply succeeds_Printlnf
      | assert (HB : B);
        [ intros f b Hf; apply negb_true_iff in Hf; unfold emitR;
          now rewrite (funcValue_unsupported f "m" Hf)
        | specialize (H HA HB) ] ]
  end.
  destruct (find _ (Struct.fields s)) as [f|].
  - rewrite block_cons. unfold Printlnf at 1. cbn [bindR].
    rewrite block_cons. unfold Printlnf at 1. cbn [bindR].
    rewrite block_cons. now rewrite H.
  - rewrite block_cons. unfold Printlnf at 1. cbn [bindR].
    rewrite block_cons. unfold Printlnf at 1. cbn [bindR].
    rewrite block_cons.
    match goal with
    | |- context [rangeFields s _ ?b] => destruct (H b) as [b1 ->]
    end.
    cbn [bindR]. now eexists.
Qed.

Lemma find_app_first {A} (p : A -> bool) (l1 l2 : list A) :
  find p (l1 ++ l2) =
  match find p l1 with Some x => Some x | None => find p l2 end.
Proof.
  induction l1 as [|x l1 IH]; cbn [app find]; [reflexivity|].
  now destruct (p x).
Qed.

Lemma find_none_all {A} (p : A -> bool) (l : list A) :
  find p l = None -> forall x, In x l -> p x = false.
Proof.
  induction l as [|y l IH]; cbn [find]; [intros _ x []|].
  destruct (p y) eqn:E; [discriminate|].
  intros H x [<-|Hx]; [exact E | now apply IH].
Qed.

Lemma emitStruct_outcome (s : Struct.t) (buf : string) :
  match find (fun f => negb (supported (Field.typeStr f))) (Struct.fields s)
  with
  | Some f => emitStruct s buf = Panic (Field.typeStr f +:+ "unsupport")
  | None => exists b, emitStruct s buf = Ok b
  end.
Proof.
  destruct (find _ (Struct.fields s)) as [f|] eqn:E.
  - unfold emitStruct.
    destruct (block_succeeds_then
                [funcAllFields s; funcAllFieldsWithId s; funcTagName s;
                 funcEdgeName s]
                [funcNqlNameValues s; funcNqlValues s; funcNqlNames s;
                 funcNqlBind s; CreateTag s; CreateEdge s; funcInsertTag s;
                 funcInsertEdge s; funcBindRecord s; funcBindResult s;
                 funcConditionItem s; funcBindOne s; funcOne s; funcList s;
                 funcRemoveTag s; funcRemoveEdge s] buf) as [b Hb].
    { unfold funcAllFields, funcAllFieldsWithId, funcTagName, funcEdgeName.
      solve_succeeds. }
    cbn [app] in Hb. rewrite Hb, block_cons.
    pose proof (funcNqlNameValues_outcome s b) as H. rewrite E in H.
    now rewrite H.
  - apply emitStruct_succeeds. intros f Hf.
    apply (find_none_all _ _ E) in Hf. now apply negb_false_iff in Hf.
Qed.

Lemma forEach_emitStruct_outcome (ss : list Struct.t) (buf : string) :
  match firstUnsupported ss with
  | Some f =>
      forEach ss emitStruct buf = Panic (Field.typeStr f +:+ "unsupport")
  | None => exists b, forEach ss emitStruct buf = Ok b
  end.
Proof.
  unfold firstUnsupported, forEach. revert buf.
  induction ss as [|s ss IH]; intros buf; cbn [flat_map map find].
  - now exists buf.
  - rewrite find_app_first, block_cons.
    pose proof (emitStruct_outcome s buf) as H.
    destruct (find _ (Struct.fields s)) as [f|].
    + now rewrite H.
    + destruct H as [b ->]. cbn [bindR]. apply IH.
Qed.

(** X7. Once the model is extracted, the outcome of emission is decided by
    the first field, in model order, whose type is not one of the eight
    names: if there is none, emission returns; if there is one, emission
    panics with the message made of that field's type followed by
    [unsupport], whatever is in the buffer. *)
Theorem emission_panics_on_first_unsupported_field
        (ss : list Struct.t) (buf : string) :
  match firstUnsupported ss with
  | Some f => emitAll ss buf = Panic (Field.typeStr f +:+ "unsupport")
  | None => exists out, emitAll ss buf = Ok out
  end.
Proof.
  destruct (firstUnsupported ss) as [f|] eqn:E;
    unfold emitAll; rewrite block_cons; unfold checkResultSet, PrintlnfS;
    cbn [bindR]; rewrite block_cons;
    match goal with
    | |- context [forEach ss emitStruct ?b] =>
        pose proof (forEach_emitStruct_outcome ss b) as H; rewrite E in H
    end.
  - now rewrite H.
  - destruct H as [b ->]. cbn [bindR].
    destruct (succeeds_block [Create ss]) with (buf := b) as [out ->].
    + constructor; [|constructor]. unfold Create. solve_succeeds.
    + now exists out.
Qed.

(** X8. Emission only appends: run on any buffer, [emitAll] leaves the
    buffer as a prefix and adds the text it prints on an empty buffer, and it
    panics on a buffer exactly when it panics on the empty one. *)
Theorem emission_only_appends (ss : list Struct.t) (buf : string) :
  emitAll ss buf = call t <- emitAll ss EmptyString in Ok (buf +:+ t).
Proof. apply appends_emitAll. Qed.

(* ===================================================================== *)
(** ** The layout of the raw output *)
(* ===================================================================== *)

Lemma header_text (c n : string) :
  header c n EmptyString = Ok (headerText c n).
Proof.
  unfold header, headerText. cbn [block bindR]. unfold Printf, Printlnf.
  cbn [bindR]. rewrite !Sprintf0_plain by reflexivity.
  cbn [cat fold_right]. rewrite !append_assoc, !append_nil_r. reflexivity.
Qed.

(** X9. The raw buffer of a run that reaches [format] is the banner, the
    package clause and the import block, followed by what [emitAll] prints
    for the extracted model: nothing else enters it, and the banner comes
    first. *)
Theorem raw_output_is_header_then_templates
        (fl : Flags) (pkg : LoadedPackage) (ss : list Struct.t)
        (g : Generator.t) :
  extracted fl pkg = Ok ss ->
  emission fl pkg = Ok g ->
  exists body,
    emitAll ss EmptyString = Ok body
    /\ Generator.buf g = headerText (cmdline fl) (Name pkg) +:+ body.
Proof.
  unfold extracted, emission, generate, addPackage.
  cbn [Generator.buf Generator.pkg Generator.Structs Generator.trimPrefix
       Generator.lineComment files].
  rewrite header_text. cbn [bindR].
  destruct (scanFiles _ _ _ None) as [r|m]; cbn [bindR]; [|discriminate].
  intros [= <-]. rewrite (appends_emitAll (sliceOf r)).
  destruct (emitAll (sliceOf r) EmptyString) as [body|m]; cbn [bindR];
    [|discriminate].
  intros [= <-]. now exists body.
Qed.

Lemma raw_output_is_header_then_templates_witness :
  exists g body,
    emission (Samples.flags EmptyString EmptyString)
             (Samples.packageOf [Samples.followDecl]) = Ok g
    /\ emitAll [ Struct.mk "Follow" "follow"
                   [ Field.mk "Since" "since" "int64" EmptyString false
                              EmptyString ] false true ] EmptyString
       = Ok body
    /\ Generator.buf g =
       headerText (cmdline (Samples.flags EmptyString EmptyString))
                  (Name (Samples.packageOf [Samples.followDecl])) +:+ body.
Proof.
  destruct (emission (Samples.flags EmptyString EmptyString)
                     (Samples.packageOf [Samples.followDecl]))
    as [g|m] eqn:E; [|vm_compute in E; discriminate E].
  destruct (raw_output_is_header_then_templates
              (Samples.flags EmptyString EmptyString)
              (Samples.packageOf [Samples.followDecl])
              [ Struct.mk "Follow" "follow"
                  [ Field.mk "Since" "since" "int64" EmptyString false
                             EmptyString ] false true ] g)
    as (body & Hb & Hg); [vm_compute; reflexivity | exact E |].
  exists g, body. now repeat split.
Defined.

(* ===================================================================== *)
(** ** The CREATE statements *)
(* ===================================================================== *)

Lemma Join_cons2 (x y : string) (l : list string) (sep : string) :
  Join (x :: y :: l) sep = x +:+ sep +:+ Join (y :: l) sep.
Proof. reflexivity. Qed.

Lemma columns_from (total : nat) (l : list Field.t) :
  (forall f, In f l ->
             percentFree (Field.nickname f) = true
             /\ percentFree (Field.typeStr f) = true
             /\ percentFree (Field.comment f) = true) ->
  forall i buf,
    i + length l = total ->
    forEachFrom i l
      (fun i f =>
         block
           [ Printf (cat [tab; tab; Field.nickname f; tab; tab; tab;
                          toNebulaType f; tab; tab; tab; "COMMENT '";
                          Field.comment f; "'"]);
             when (negb (Nat.eqb i (total - 1))) (Printlnf ",") ]) buf
    = Ok (buf +:+ Join (map columnText l) ("," +:+ nl)).
Proof.
  induction l as [|x l IH]; intros Hp i buf Hi; cbn [forEachFrom].
  - cbn [map Join String.concat skip]. now rewrite append_nil_r.
  - rewrite !block_cons. unfold Printf at 1. cbn [bindR].
    destruct (Hp x (or_introl eq_refl)) as (H1 & H2 & H3).
    rewrite Sprintf0_plain
      by (rewrite percentFree_cat; cbn [forallb]; unfold toNebulaType;
          now rewrite H1, H2, H3).
    rewrite block_cons.
    destruct l as [|y l].
    + cbn [length] in Hi.
      replace (Nat.eqb i (total - 1)) with true
        by (symmetry; apply Nat.eqb_eq; lia).
      cbn [negb when skip bindR block forEachFrom map].
      reflexivity.
    + cbn [length] in Hi.
      replace (Nat.eqb i (total - 1)) with false
        by (symmetry; apply Nat.eqb_neq; lia).
      cbn [negb when]. unfold Printlnf at 1. cbn [bindR block].
      rewrite (IH (fun f Hf => Hp f (or_intror Hf)) (S i) _
                  ltac:(cbn [length]; lia)).
      cbn [bindR map]. rewrite Join_cons2.
      rewrite (Sprintf0_plain ("," +:+ nl)) by reflexivity.
      now rewrite !append_assoc.
Qed.

(** X10. For an edge entity whose names and comments contain no percent
    sign, [CreateEdge] prints exactly one method: a CREATE EDGE IF NOT EXISTS
    statement whose column list holds one column per declared field, in
    declaration order, separated by commas with none after the last, and
    the execution of that statement; no index statement follows. *)
Theorem CreateEdge_prints_one_statement (s : Struct.t) (buf : string) :
  Struct.isEdge s = true ->
  percentFree (Struct.name s) = true ->
  (forall f, In f (Struct.fields s) ->
             percentFree (Field.nickname f) = true
             /\ percentFree (Field.typeStr f) = true
             /\ percentFree (Field.comment f) = true) ->
  CreateEdge s buf =
  Ok (buf +:+
      cat [ "func (m *"; Struct.name s;
            ") Create(session *nebula_go.Session) {"; nl;
            tab; "nql := `CREATE EDGE IF NOT EXISTS ` + m.EdgeName() + `("; nl;
            Join (map columnText (Struct.fields s)) ("," +:+ nl);
            tab; ");`"; nl;
            "result,_ := session.Execute(nql)"; nl;
            "checkResultSet(nql, result)"; nl;
            "}"; nl ]).
Proof.
  intros He Hn Hf. unfold CreateEdge, columnLines, forEachI. rewrite He.
  cbn [negb]. rewrite !block_cons. unfold Printlnf at 1. cbn [bindR].
  rewrite block_cons. unfold Printlnf at 1. cbn [bindR].
  rewrite block_cons.
  rewrite (columns_from (length (Struct.fields s)) (Struct.fields s) Hf 0 _
             eq_refl).
  cbn [bindR block]. unfold Printlnf. cbn [bindR].
  rewrite (Sprintf0_plain (cat ["func (m *"; Struct.name s;
                                ") Create(session *nebula_go.Session) {"] +:+ nl))
    by (rewrite percentFree_append, percentFree_cat; cbn [forallb];
        now rewrite Hn).
  rewrite !Sprintf0_plain by reflexivity.
  cbn [cat fold_right]. rewrite !append_assoc, !append_nil_r. reflexivity.
Qed.

Lemma CreateEdge_prints_one_statement_witness :
  CreateEdge
    (Struct.mk "Follow" "follow"
       [ Field.mk "Since" "since" "int64" EmptyString false EmptyString;
         Field.mk "Weight" "weight" "float64" "how close" false EmptyString ]
       false true) "package model"
  = Ok ("package model" +:+
        cat [ "func (m *"; "Follow";
              ") Create(session *nebula_go.Session) {"; nl;
              tab; "nql := `CREATE EDGE IF NOT EXISTS ` + m.EdgeName() + `(";
              nl;
              Join (map columnText
                      [ Field.mk "Since" "since" "int64" EmptyString false
                                 EmptyString;
                        Field.mk "Weight" "weight" "float64" "how close" false
                                 EmptyString ]) ("," +:+ nl);
              tab; ");`"; nl;
              "result,_ := session.Execute(nql)"; nl;
              "checkResultSet(nql, result)"; nl;
              "}"; nl ]).
Proof.
  apply (CreateEdge_prints_one_statement
           (Struct.mk "Follow" "follow"
              [ Field.mk "Since" "since" "int64" EmptyString false EmptyString;
                Field.mk "Weight" "weight" "float64" "how close" false
                         EmptyString ]
              false true) "package model").
  - reflexivity.
  - reflexivity.
  - intros f [<-|[<-|[]]]; repeat split; reflexivity.
Defined.

Lemma schema_calls (ss : list Struct.t) :
  (forall s, In s ss -> percentFree (Struct.name s) = true) ->
  forall buf,
    forEach ss (fun s =>
      when (Struct.isTag s || Struct.isEdge s)
           (Printlnf (cat ["(&"; Struct.name s; "{}).Create(session)"]))) buf
    = Ok (buf +:+
          cat (map (fun s => cat ["(&"; Struct.name s; "{}).Create(session)";
                                  nl])
                   (List.filter (fun s => Struct.isTag s || Struct.isEdge s)
                                ss))).
Proof.
  unfold forEach. induction ss as [|s ss IH]; intros Hp buf;
    cbn [map List.filter].
  - cbn [block cat fold_right]. now rewrite append_nil_r.
  - rewrite block_cons.
    destruct (Struct.isTag s || Struct.isEdge s); cbn [when skip bindR].
    + unfold Printlnf at 1. cbn [bindR].
      rewrite IH by (intros x Hx; apply Hp; now right).
      rewrite Sprintf0_plain
        by (rewrite percentFree_append, percentFree_cat; cbn [forallb];
            now rewrite (Hp s (or_introl eq_refl))).
      cbn [map cat fold_right]. now rewrite !append_assoc, !append_nil_r.
    + apply IH. intros x Hx. apply Hp. now right.
Qed.

(** X11. The package-level [Create] calls the [Create] method of every
    entity that is a vertex or an edge, once each, in the order of the
    model, and of no other entity. *)
Theorem package_Create_calls_every_vertex_and_edge
        (ss : list Struct.t) (buf : string) :
  (forall s, In s ss -> percentFree (Struct.name s) = true) ->
  Create ss buf =
  Ok (buf +:+
      cat [ "func Create(session *nebula_go.Session) {"; nl;
            cat (map (fun s => cat ["(&"; Struct.name s;
                                    "{}).Create(session)"; nl])
                     (List.filter
                        (fun s => Struct.isTag s || Struct.isEdge s) ss));
            "}"; nl ]).
Proof.
  intros Hp. unfold Create. rewrite !block_cons. unfold Printlnf at 1.
  cbn [bindR]. rewrite block_cons, (schema_calls ss Hp). cbn [bindR block].
  unfold Printlnf. cbn [bindR]. rewrite !Sprintf0_plain by reflexivity.
  cbn [cat fold_right]. now rewrite !append_assoc, !append_nil_r.
Qed.

Lemma package_Create_calls_every_vertex_and_edge_witness :
  Create [Samples.note; Samples.person; Samples.account] EmptyString =
  Ok (EmptyString +:+
      cat [ "func Create(session *nebula_go.Session) {"; nl;
            cat (map (fun s => cat ["(&"; Struct.name s;
                                    "{}).Create(session)"; nl])
                     (List.filter
                        (fun s => Struct.isTag s || Struct.isEdge s)
                        [Samples.note; Samples.person; Samples.account]));
            "}"; nl ]).
Proof.
  apply (package_Create_calls_every_vertex_and_edge
           [Samples.note; Samples.person; Samples.account] EmptyString).
  intros s [<-|[<-|[<-|[]]]]; reflexivity.
Defined.

(* ===================================================================== *)
(** ** [NqlValues] and [Insert] *)
(* ===================================================================== *)

Lemma matched_nil_iff (arms : Arms) (fields : list string) :
  matched arms fields = [] <-> existsb (hasArm arms) fields = false.
Proof.
  induction fields as [|f fs IH]; [now split|].
  rewrite matched_cons. cbn [existsb]. unfold hasArm at 1.
  destruct (firstArm arms f) as [e|]; cbn [app orb].
  - split; discriminate.
  - exact IH.
Qed.

Lemma hasArm_declared (s : Struct.t) (body : Field.t -> result string)
      (arms : Arms) (f : string) :
  armsOf s body = Ok arms ->
  hasArm arms f = existsb (String.eqb f) (AllFields_run s).
Proof.
  intros Ha. rewrite <- (armsOf_keys _ _ _ Ha). unfold hasArm. clear Ha.
  induction arms as [|[k e] arms IH]; cbn [firstArm map fst existsb];
    [reflexivity|].
  destruct (String.eqb f k); [reflexivity | exact IH].
Qed.

Lemma existsb_pointwise {A} (p q : A -> bool) (l : list A) :
  (forall x, p x = q x) -> existsb p l = existsb q l.
Proof.
  intros H. induction l as [|x l IH]; [reflexivity|].
  cbn [existsb]. now rewrite H, IH.
Qed.

(** X12. The emitted [NqlValues] returns exactly when at least one
    requested name is the external name of a declared field, and panics on
    slicing the empty string otherwise: it panics on every request when the
    entity declares no field, and on the empty request for every entity. *)
Theorem NqlValues_returns_iff_some_name_is_declared
        (eval : string -> string) (s : Struct.t) (arms : Arms)
        (fields : list string) :
  valueArms s = Ok arms ->
  returns (NqlValues_run eval arms fields) =
  existsb (fun f => existsb (String.eqb f) (AllFields_run s)) fields.
Proof.
  intros Ha.
  rewrite <- (existsb_pointwise (hasArm arms)
                (fun f => existsb (String.eqb f) (AllFields_run s)));
    [|intros f; now apply (hasArm_declared s _ arms f Ha)].
  destruct (existsb (hasArm arms) fields) eqn:E.
  - rewrite NqlValues_run_matched; [reflexivity|].
    intros H. apply matched_nil_iff in H. congruence.
  - rewrite NqlValues_run_nothing_matched; [reflexivity|].
    now apply matched_nil_iff.
Qed.

Lemma NqlValues_returns_iff_some_name_is_declared_witness :
  returns (NqlValues_run Samples.alice Samples.personValueArms ["zzz"; "age"])
  = existsb (fun f => existsb (String.eqb f) (AllFields_run Samples.person))
            ["zzz"; "age"].
Proof.
  apply (NqlValues_returns_iff_some_name_is_declared Samples.alice
           Samples.person Samples.personValueArms ["zzz"; "age"]).
  vm_compute. reflexivity.
Defined.

Lemma matched_ext (a b : Arms) (fields : list string) :
  (forall f, In f fields -> firstArm a f = firstArm b f) ->
  matched a fields = matched b fields.
Proof.
  induction fields as [|f fs IH]; intros H; [reflexivity|].
  rewrite !matched_cons, (H f (or_introl eq_refl)), IH; [reflexivity|].
  intros g Hg. apply H. now right.
Qed.

Lemma matched_own_keys (arms : Arms) :
  List.NoDup (map fst arms) -> matched arms (map fst arms) = map snd arms.
Proof.
  induction arms as [|[k e] arms IH]; intros Hn; [reflexivity|].
  cbn [map fst snd]. rewrite matched_cons. cbn [firstArm].
  rewrite String.eqb_refl. cbn [app]. f_equal.
  cbn [map fst] in Hn. apply List.NoDup_cons_iff in Hn as [Hk Hn].
  rewrite <- (IH Hn). apply matched_ext. intros f Hf. cbn [firstArm].
  destruct (String.eqb_spec f k) as [->|_]; [contradiction | reflexivity].
Qed.

(** X13. What [Insert] sends when no field is requested: for an entity with
    at least one field and pairwise distinct external names, [NqlValues] on
    the list [AllFields] returns the values of all declared fields, in
    declaration order, joined by commas, one for each name that [NqlNames]
    joins on the same list. *)
Theorem NqlValues_on_AllFields_gives_every_value
        (eval : string -> string) (s : Struct.t) (arms : Arms) :
  valueArms s = Ok arms ->
  Struct.fields s <> [] ->
  List.NoDup (AllFields_run s) ->
  NqlValues_run eval arms (AllFields_run s) =
  Ok (Join (map eval (map snd arms)) ",")
  /\ NqlNames_run (AllFields_run s) = Join (map fst arms) ","
  /\ length (map snd arms) = length (AllFields_run s).
Proof.
  intros Ha Hne Hnd. pose proof (armsOf_keys _ _ _ Ha) as Hk.
  rewrite <- Hk in Hnd |- *.
  assert (Hm : matched arms (map fst arms) = map snd arms)
    by now apply matched_own_keys.
  split; [|split; [reflexivity | now rewrite !length_map]].
  rewrite NqlValues_run_matched; rewrite Hm; [reflexivity|].
  destruct arms as [|a arms]; [|discriminate].
  exfalso. apply Hne. unfold AllFields_run in Hk.
  destruct (Struct.fields s); [reflexivity | discriminate Hk].
Qed.

Lemma NqlValues_on_AllFields_gives_every_value_witness :
  NqlValues_run Samples.alice Samples.personValueArms
                (AllFields_run Samples.person) =
  Ok (Join (map Samples.alice (map snd Samples.personValueArms)) ",")
  /\ NqlNames_run (AllFields_run Samples.person) =
     Join (map fst Samples.personValueArms) ","
  /\ length (map snd Samples.personValueArms) =
     length (AllFields_run Samples.person).
Proof.
  apply (NqlValues_on_AllFields_gives_every_value Samples.alice Samples.person
           Samples.personValueArms).
  - vm_compute. reflexivity.
  - discriminate.
  - repeat constructor; cbn; intuition discriminate.
Defined.

(* ===================================================================== *)
(** ** The columns of a query result *)
(* ===================================================================== *)

Lemma forEachFrom_In_written {A} (l : list A) (body : nat -> A -> Emit)
      (x : A) :
  (forall i y, appends (body i y)) -> In x l ->
  forall i out,
    forEachFrom i l body EmptyString = Ok out ->
    exists j t pre post,
      body j x EmptyString = Ok t /\ out = pre +:+ t +:+ post.
Proof.
  intros Hb. induction l as [|a l IH]; intros Hin i out Hout; [destruct Hin|].
  cbn [forEachFrom] in Hout.
  assert (HF : Forall appends [body i a; forEachFrom (S i) l body]).
  { constructor; [apply Hb|]. constructor; [|constructor].
    now apply appends_forEachFrom. }
  destruct Hin as [<-|Hin].
  - destruct (block_In_written _ (body i a) HF (or_introl eq_refl) out Hout)
      as (t & pre & post & Ht & ->).
    now exists i, t, pre, post.
  - destruct (block_In_written _ (forEachFrom (S i) l body) HF
                (or_intror (or_introl eq_refl)) out Hout)
      as (u & pre & post & Hu & ->).
    destruct (IH Hin (S i) u Hu) as (j & t & pre' & post' & Ht & ->).
    exists j, t, (pre +:+ pre'), (post' +:+ post). split; [exact Ht|].
    now rewrite !append_assoc.
Qed.

Lemma rangeFields_In_written (s : Struct.t) (arm : Field.t -> Emit)
      (f : Field.t) (out : string) :
  (forall g, appends (arm g)) -> In f (Struct.fields s) ->
  rangeFields s arm EmptyString = Ok out ->
  exists t pre post, arm f EmptyString = Ok t /\ out = pre +:+ t +:+ post.
Proof.
  intros Ha Hin. unfold rangeFields.
  destruct (Struct.fields s) as [|f0 fs] eqn:Ef; [destruct Hin|].
  cbn [length Nat.ltb Nat.leb when]. intros Hout.
  match type of Hout with
  | block ?l _ = _ =>
      assert (HF : Forall appends l);
      [ constructor; [apply appends_Printlnf|];
        constructor; [|constructor; [apply appends_Printlnf | constructor]];
        apply appends_forEachI; intros i g; apply appends_block;
        constructor; [apply appends_when, appends_Printf|];
        constructor; [apply appends_Printlnf|];
        constructor; [apply Ha|];
        constructor; [apply appends_Printf | constructor]
      | destruct (block_In_written l _ HF (or_intror (or_introl eq_refl))
                    out Hout) as (u & pre & post & Hu & ->) ]
  end.
  unfold forEachI in Hu.
  match type of Hu with
  | forEachFrom 0 ?l ?body _ = _ =>
      assert (HB : forall i y, appends (body i y));
      [ intros i g; apply appends_block;
        constructor; [apply appends_when, appends_Printf|];
        constructor; [apply appends_Printlnf|];
        constructor; [apply Ha|];
        constructor; [apply appends_Printf | constructor]
      | destruct (forEachFrom_In_written l body f HB Hin 0 u Hu)
          as (j & t & pre' & post' & Ht & ->) ]
  end.
  cbv beta in Ht.
  match type of Ht with
  | block ?l _ = _ =>
      assert (HF' : Forall appends l);
      [ constructor; [apply appends_when, appends_Printf|];
        constructor; [apply appends_Printlnf|];
        constructor; [apply Ha|];
        constructor; [apply appends_Printf | constructor]
      | destruct (block_In_written l (arm f) HF'
                    (or_intror (or_intror (or_introl eq_refl))) t Ht)
          as (w & pre'' & post'' & Hw & ->) ]
  end.
  exists w, (pre +:+ pre' +:+ pre''), (post'' +:+ post' +:+ post).
  split; [exact Hw|]. now rewrite !append_assoc.
Qed.

Lemma supported_percentFree (t : string) :
  supported t = true -> percentFree t = true.
Proof.
  unfold supported. cbn [existsb]. intros H.
  repeat (apply orb_prop in H as [H|H];
          [apply String.eqb_eq in H; now subst|]).
  discriminate H.
Qed.

Lemma cat_app (l1 l2 : list string) : cat (l1 ++ l2) = cat l1 +:+ cat l2.
Proof.
  induction l1 as [|x l1 IH]; [reflexivity|].
  cbn [app cat fold_right]. fold (cat (l1 ++ l2)) (cat l1).
  now rewrite IH, append_assoc.
Qed.

Lemma Field_funcBindResult_reads (f : Field.t) (sn prefix txt : string) :
  Field_funcBindResult f sn prefix = Ok txt ->
  exists post,
    txt = cat [nl; "val,err := record.GetValueByColName("; dq; prefix;
               Field.nickname f; dq; ")"] +:+ post.
Proof.
  unfold Field_funcBindResult.
  match goal with
  | |- bindR ?r _ = _ -> _ => destruct r as [val|m]
  end; cbn [bindR]; [|discriminate].
  match goal with
  | |- Ok (cat (?a :: ?b :: ?c :: ?d :: ?e :: ?g :: ?h :: ?rest)) = Ok _ -> _ =>
      intros H; exists (cat rest); injection H as <-;
      exact (cat_app [a; b; c; d; e; g; h] rest)
  end.
Qed.

Lemma Field_funcBindResult_percentFree (f : Field.t) (sn prefix txt : string) :
  Field_funcBindResult f sn prefix = Ok txt ->
  percentFree sn = true ->
  percentFree prefix = true ->
  percentFree (Field.name f) = true ->
  percentFree (Field.nickname f) = true ->
  percentFree txt = true.
Proof.
  intros Ht H1 H2 H3 H4.
  assert (Hs : supported (Field.typeStr f) = true).
  { destruct (supported (Field.typeStr f)) eqn:E; [reflexivity|].
    rewrite (Field_funcBindResult_unsupported f sn prefix E) in Ht.
    discriminate Ht. }
  pose proof (supported_percentFree _ Hs) as H5.
  revert Ht. unfold Field_funcBindResult.
  match goal with
  | |- bindR ?r _ = _ -> _ =>
      assert (Hv : forall val, r = Ok val -> percentFree val = true);
      [ intros val;
        repeat (destruct (String.eqb (Field.typeStr f) _);
                [now intros [= <-]|]);
        discriminate
      | destruct r as [val|m] ]
  end; cbn [bindR]; [|discriminate].
  match goal with
  | |- Ok ?t = Ok _ -> _ =>
      intros H; assert (E : t = txt) by (now injection H);
      rewrite <- E; clear E H
  end.
  rewrite percentFree_cat. cbn [forallb].
  rewrite (Hv val eq_refl), H2, H4.
  destruct (String.eqb (Field.nickname f) (Field.nickname IDFIELD));
    rewrite ?percentFree_append, ?percentFree_cat; cbn [forallb];
    now rewrite ?H1, ?H3, ?H5.
Qed.

Lemma funcBindRecord_succeeds (s : Struct.t) :
  (forall g, In g (Struct.fields s) -> supported (Field.typeStr g) = true) ->
  succeeds (funcBindRecord s).
Proof.
  intros Hs. unfold funcBindRecord. solve_succeeds;
    (apply succeeds_emitR;
     [ apply Field_funcBindResult_supported; first [now apply Hs | reflexivity]
     | intros ?; apply succeeds_Printlnf ]).
Qed.

(** X14. The columns [List] asks for are the columns [BindRecord] reads:
    for every declared field of an entity whose field types the codec
    knows, the query [List] builds returns the property under the alias
    <label>_<property>, and [BindRecord] reads the column of that very name
    from the record.  The names are taken to hold no percent sign. *)
Theorem List_projects_what_BindRecord_reads (s : Struct.t) (f : Field.t) :
  In f (Struct.fields s) ->
  (forall g, In g (Struct.fields s) -> supported (Field.typeStr g) = true) ->
  percentFree (Struct.nickname s) = true ->
  percentFree (Field.nickname f) = true ->
  percentFree (Field.name f) = true ->
  (exists pre post,
      forall buf,
        funcList s buf =
        Ok (buf +:+ pre +:+
            cat [",v."; Struct.nickname s; "."; Field.nickname f; " as ";
                 columnName s f; dq] +:+ post))
  /\ (exists pre post,
         forall buf,
           funcBindRecord s buf =
           Ok (buf +:+ pre +:+
               cat ["record.GetValueByColName("; dq; columnName s f; dq; ")"]
               +:+ post)).
Proof.
  intros Hin Hs Hsn Hfn Hn. split.
  - assert (HA : appends (funcList s)) by (unfold funcList; solve_appends).
    assert (HS : succeeds (funcList s)) by (unfold funcList; solve_succeeds).
    destruct (HS EmptyString) as [out Hout].
    pose proof (appends_ok _ _ HA Hout) as Hall.
    unfold funcList in Hout.
    match type of Hout with
    | block ?l _ = _ =>
        assert (HF : Forall appends l) by solve_appends;
        assert (HI : In (forEach (Struct.fields s) (fun f =>
                       Printlnf (cat [tab; tab; tab; dq; ",v.";
                                      Struct.nickname s; "."; Field.nickname f;
                                      " as "; Struct.nickname s; "_";
                                      Field.nickname f; dq; " +"]))) l)
          by (do 6 right; left; reflexivity);
        destruct (block_In_written l _ HF HI out Hout)
          as (u & pre & post & Hu & ->)
    end.
    match type of Hu with
    | forEach ?l ?body _ = _ =>
        assert (HB : forall y, appends (body y))
          by (intros y; solve_appends);
        destruct (forEach_In_written l body f HB Hin u Hu)
          as (t & pre' & post' & Ht & ->)
    end.
    cbv beta in Ht. unfold Printlnf in Ht.
    rewrite Sprintf0_plain in Ht
      by (rewrite percentFree_append, percentFree_cat; cbn [forallb];
          now rewrite Hsn, Hfn).
    injection Ht as <-.
    exists (pre +:+ pre' +:+ cat [tab; tab; tab; dq]),
           (" +" +:+ nl +:+ post' +:+ post).
    intros buf. rewrite Hall. f_equal. unfold columnName.
    cbn [cat fold_right]. rewrite ?append_assoc, ?append_nil_r.
    reflexivity.
  - assert (HA : appends (funcBindRecord s))
      by (unfold funcBindRecord; solve_appends).
    destruct (funcBindRecord_succeeds s Hs EmptyString) as [out Hout].
    pose proof (appends_ok _ _ HA Hout) as Hall.
    unfold funcBindRecord in Hout.
    match type of Hout with
    | block ?l _ = _ =>
        assert (HF : Forall appends l) by solve_appends;
        assert (HI : In (rangeFields s (fun f =>
                           emitR (Field_funcBindResult f "m"
                                    (Struct.nickname s +:+ "_")) Printlnf)) l)
          by (do 5 right; left; reflexivity);
        destruct (block_In_written l _ HF HI out Hout)
          as (u & pre & post & Hu & ->)
    end.
    destruct (rangeFields_In_written s _ f u
                (fun g => appends_emitR _ _ appends_Printlnf) Hin Hu)
      as (t & pre' & post' & Ht & ->).
    cbv beta in Ht.
    unfold emitR in Ht.
    destruct (Field_funcBindResult f "m" (Struct.nickname s +:+ "_"))
      as [txt|m] eqn:Htxt; cbn [bindR] in Ht; [|discriminate Ht].
    destruct (Field_funcBindResult_reads f "m" _ txt Htxt) as [post0 Hshape].
    assert (Hp : percentFree txt = true).
    { apply (Field_funcBindResult_percentFree f "m" _ txt Htxt);
        [reflexivity | | exact Hn | exact Hfn].
      rewrite percentFree_append. now rewrite Hsn. }
    unfold Printlnf in Ht.
    rewrite Sprintf0_plain in Ht by (rewrite percentFree_append; now rewrite Hp).
    injection Ht as <-.
    exists (pre +:+ pre' +:+ cat [nl; "val,err := "]),
           (post0 +:+ nl +:+ post' +:+ post).
    intros buf. rewrite Hall. f_equal. rewrite Hshape. unfold columnName.
    cbn [cat fold_right]. rewrite ?append_assoc, ?append_nil_r.
    reflexivity.
Qed.

Lemma List_projects_what_BindRecord_reads_witness :
  (exists pre post,
      forall buf,
        funcList Samples.person buf =
        Ok (buf +:+ pre +:+
            cat [",v."; Struct.nickname Samples.person; ".";
                 Field.nickname
                   (Field.mk "Name" "name" "string" EmptyString false
                             EmptyString);
                 " as ";
                 columnName Samples.person
                   (Field.mk "Name" "name" "string" EmptyString false
                             EmptyString); dq] +:+ post))
  /\ (exists pre post,
         forall buf,
           funcBindRecord Samples.person buf =
           Ok (buf +:+ pre +:+
               cat ["record.GetValueByColName("; dq;
                    columnName Samples.person
                      (Field.mk "Name" "name" "string" EmptyString false
                                EmptyString); dq; ")"]
               +:+ post)).
Proof.
  apply (List_projects_what_BindRecord_reads Samples.person
           (Field.mk "Name" "name" "string" EmptyString false EmptyString)).
  - left. reflexivity.
  - intros g [<-|[<-|[]]]; reflexivity.
  - reflexivity.
  - reflexivity.
  - reflexivity.
Defined.

(* ===================================================================== *)
(** ** The identity special case *)
(* ===================================================================== *)


